(** * PR-Analyser: the analysis route ([src/app/api/analyze/route.ts])

    A shallow embedding of the route's code and the properties of its
    natural-language specification.

    Modelling conventions.
    - A JavaScript string is a [string]: a sequence of code units below 256.
    - A JavaScript number is a [Z]: the fields GitHub reports are integers and
      the sums taken here stay far inside the range where doubles are exact.
    - A field of an input record that is missing (or [undefined]) is [None].
    - An exception is a value: code that can throw returns a [Result].
    - The calls to the GitHub API are events of an interaction tree. *)

From ITree Require Import ITree ITreeFacts Props.Leaf Events.State Events.StateFacts.
From Stdlib Require Import List String Ascii Bool Arith ZArith NArith Lia.
From Stdlib Require Import Permutation Sorted DecimalString.
From Stdlib Require DecimalPos DecimalZ.
Import ListNotations.

Local Open Scope string_scope.
Local Open Scope Z_scope.

(* ===================================================================== *)
(** ** JavaScript built-ins used by the route *)
(* ===================================================================== *)

Module JS.

(** [v || 0] on a number that may be missing: [undefined] and [0] are
    falsy, every other number is kept. *)
Definition or_zero (v : option Z) : Z :=
  match v with
  | Some n => if n =? 0 then 0 else n
  | None => 0
  end.

(** [s || d] on strings: the empty string is falsy. *)
Definition or_string (s d : string) : string :=
  match s with
  | EmptyString => d
  | _ => s
  end.

(** [!v] on a string that may be missing. *)
Definition falsy (v : option string) : bool :=
  match v with
  | None => true
  | Some EmptyString => true
  | Some _ => false
  end.

(** [String.prototype.split] with a separator of one code unit: the
    result is never empty: the empty string gives one empty segment. *)
Fixpoint split (sep : ascii) (s : string) : list string :=
  match s with
  | EmptyString => [EmptyString]
  | String c s' =>
      if Ascii.eqb c sep then EmptyString :: split sep s'
      else match split sep s' with
           | seg :: segs => String c seg :: segs
           | [] => [String c EmptyString]
           end
  end.

(** [Array.prototype.slice(a, b)] for indices [0 <= a <= b]. *)
Definition slice {A : Type} (a b : nat) (l : list A) : list A :=
  firstn (b - a) (skipn a l).

(** The line feed, ["\n"]. *)
Definition newline : string := String "010" EmptyString.

(** [Array.prototype.join] on an array of strings. *)
Definition join (sep : string) (l : list string) : string :=
  String.concat sep l.

(** What [join] and a template literal make of an element that may be
    [undefined]. *)
Definition join_item (v : option string) : string :=
  match v with Some s => s | None => EmptyString end.

Definition to_string (v : option string) : string :=
  match v with Some s => s | None => "undefined" end.

(** [Array.prototype.sort] with a comparator. The language requires the
    sort to be stable; with a comparator that is a consistent weak order
    the result is then unique, and straight insertion computes it: [x],
    which stood before every element of [l], goes in front of the first
    [y] that does not have to precede it. *)
Fixpoint sort_insert {A : Type} (cmp : A -> A -> Z) (x : A) (l : list A) : list A :=
  match l with
  | [] => [x]
  | y :: l' => if cmp x y <=? 0 then x :: y :: l' else y :: sort_insert cmp x l'
  end.

Fixpoint sort {A : Type} (cmp : A -> A -> Z) (l : list A) : list A :=
  match l with
  | [] => []
  | x :: l' => sort_insert cmp x (sort cmp l')
  end.

(** A [Map<string, number>]: the entries in insertion order. [set] on a
    key that is present keeps the entry where it is. *)
Definition Map := list (string * Z).

Fixpoint map_get (m : Map) (k : string) : option Z :=
  match m with
  | [] => None
  | (k', v) :: m' => if String.eqb k' k then Some v else map_get m' k
  end.

Fixpoint map_set (m : Map) (k : string) (v : Z) : Map :=
  match m with
  | [] => [(k, v)]
  | (k', v') :: m' =>
      if String.eqb k' k then (k', v) :: m' else (k', v') :: map_set m' k v
  end.

(** White space of [String.prototype.trim] among the code units below 256:
    TAB, LF, VT, FF, CR, space and the no-break space. *)
Definition is_white_space (c : ascii) : bool :=
  let n := N_of_ascii c in
  ((9 <=? n) && (n <=? 13) || (n =? 32) || (n =? 160))%N.

Fixpoint trim_start (s : string) : string :=
  match s with
  | String c s' => if is_white_space c then trim_start s' else s
  | EmptyString => EmptyString
  end.

Fixpoint trim_end (s : string) : string :=
  match s with
  | EmptyString => EmptyString
  | String c s' =>
      match trim_end s' with
      | EmptyString => if is_white_space c then EmptyString else String c EmptyString
      | t => String c t
      end
  end.

Definition trim (s : string) : string := trim_end (trim_start s).

(** [Number(s)] on a string of decimal digits. *)
Definition digit_value (c : ascii) : N := (N_of_ascii c - 48)%N.

Definition number_of_digits (s : string) : N :=
  fold_left (fun acc c => (10 * acc + digit_value c)%N) (list_ascii_of_string s) 0%N.

(** A template literal's rendering of an integer. *)
Definition number_to_string (z : Z) : string :=
  NilZero.string_of_int (Z.to_int z).

(** [String.prototype.toUpperCase] on the letters a-z. *)
Definition upper_ascii (c : ascii) : ascii :=
  let n := N_of_ascii c in
  if ((97 <=? n) && (n <=? 122))%N then ascii_of_N (n - 32) else c.

Fixpoint to_upper_case (s : string) : string :=
  match s with
  | EmptyString => EmptyString
  | String c s' => String (upper_ascii c) (to_upper_case s')
  end.

End JS.

(* ===================================================================== *)
(** ** Regular expressions: the backtracking matcher of the language *)
(* ===================================================================== *)

Module RegExp.

(** The pattern syntax the route uses. A capture group carries its
    number; an escaped character ([\.], [\/]) is a [Char]. *)
Inductive regex : Type :=
| Empty
| Char (ch : ascii)
| CharClass (invert : bool) (members : list ascii)
| Seq (r1 r2 : regex)
| Disj (r1 r2 : regex)
| Group (n : nat) (r : regex)
| Opt (r : regex)
| Plus (r : regex)
| AssertStart
| AssertEnd
| WordBoundary.

(** [Canonicalize] under the [i] flag without the [u] flag: the upper
    case of the code unit when that is one code unit, except that a code
    unit from 128 on is never sent below 128. On code units below 256:
    a-z and the Latin-1 small letters go to their capitals, the micro
    sign to U+039C, y-diaeresis to U+0178, sharp s stays. *)
Definition Canonicalize (c : ascii) : N :=
  let n := N_of_ascii c in
  (if (97 <=? n) && (n <=? 122) then n - 32
   else if (224 <=? n) && (n <=? 254) && negb (n =? 247) then n - 32
   else if n =? 255 then 376
   else if n =? 181 then 924
   else n)%N.

Definition same_char (a b : ascii) : bool :=
  (Canonicalize a =? Canonicalize b)%N.

(** The characters of [\w] and [\b]: letters, digits and underscore. *)
Definition is_word_char (c : ascii) : bool :=
  let n := N_of_ascii c in
  ((97 <=? n) && (n <=? 122) || (65 <=? n) && (n <=? 90)
   || (48 <=? n) && (n <=? 57) || (n =? 95))%N.

Definition is_word (c : option ascii) : bool :=
  match c with Some a => is_word_char a | None => false end.

Definition digit : regex :=
  CharClass false ["0"; "1"; "2"; "3"; "4"; "5"; "6"; "7"; "8"; "9"]%char.

(** A run of pattern characters, such as [auth]. *)
Fixpoint lit (w : string) : regex :=
  match w with
  | EmptyString => Empty
  | String c EmptyString => Char c
  | String c w' => Seq (Char c) (lit w')
  end.

Fixpoint disj (rs : list regex) : regex :=
  match rs with
  | [] => Empty
  | [r] => r
  | r :: rs' => Disj r (disj rs')
  end.

(** [w1|w2|...] for runs of pattern characters. *)
Definition alternatives (ws : list string) : regex := disj (List.map lit ws).

(** The state of a match: the character before the current position
    (none at the start of the input), the input from the current position
    on, and the captures made so far, latest first. *)
Record MatchState : Type := mkState {
  before : option ascii;
  rest : string;
  captures : list (nat * string)
}.

Definition Continuation : Type := MatchState -> option MatchState.

Definition head (s : string) : option ascii :=
  match s with String a _ => Some a | EmptyString => None end.

Definition advance (x : MatchState) (a : ascii) (s : string) : MatchState :=
  mkState (Some a) s (captures x).

(** The part of the input between two states of one match. *)
Definition consumed (x y : MatchState) : string :=
  substring 0 (String.length (rest x) - String.length (rest y)) (rest x).

Definition set_capture (n : nat) (x y : MatchState) : MatchState :=
  mkState (before y) (rest y) ((n, consumed x y) :: captures y).

Definition progressed (x y : MatchState) : bool :=
  (String.length (rest y) <? String.length (rest x))%nat.

Definition char_step (ok : ascii -> bool) (x : MatchState) (c : Continuation)
  : option MatchState :=
  match rest x with
  | String a s => if ok a then c (advance x a s) else None
  | EmptyString => None
  end.

Definition or_else (a : option MatchState) (b : option MatchState) : option MatchState :=
  match a with Some y => Some y | None => b end.

(** The matcher of a pattern, in continuation-passing style as the
    language definition has it. A greedy quantifier tries one more
    iteration first and refuses an iteration that consumes nothing; as
    every iteration consumes a character, the input that is left bounds
    the number of iterations. *)
Fixpoint matcher (r : regex) : MatchState -> Continuation -> option MatchState :=
  match r with
  | Empty => fun x c => c x
  | Char ch => fun x c => char_step (fun a => same_char a ch) x c
  | CharClass invert members => fun x c =>
      char_step (fun a => xorb (existsb (fun m => same_char m a) members) invert) x c
  | Seq r1 r2 => fun x c => matcher r1 x (fun y => matcher r2 y c)
  | Disj r1 r2 => fun x c => or_else (matcher r1 x c) (matcher r2 x c)
  | Group n r1 => fun x c => matcher r1 x (fun y => c (set_capture n x y))
  | Opt r1 => fun x c =>
      or_else (matcher r1 x (fun y => if progressed x y then c y else None)) (c x)
  | Plus r1 => fun x c =>
      matcher r1 x (fun y =>
        (fix loop (fuel : nat) (x : MatchState) : option MatchState :=
           match fuel with
           | O => c x
           | S fuel' =>
               or_else
                 (matcher r1 x (fun y => if progressed x y then loop fuel' y else None))
                 (c x)
           end) (String.length (rest y)) y)
  | AssertStart => fun x c =>
      match before x with None => c x | Some _ => None end
  | AssertEnd => fun x c =>
      match rest x with EmptyString => c x | String _ _ => None end
  | WordBoundary => fun x c =>
      if xorb (is_word (before x)) (is_word (head (rest x))) then c x else None
  end.

(** [RegExp.prototype.exec] without the [g] and [y] flags: the first
    position, from the left, where the pattern matches. *)
Fixpoint exec_from (r : regex) (prev : option ascii) (s : string) : option MatchState :=
  match matcher r (mkState prev s []) Some with
  | Some y => Some y
  | None =>
      match s with
      | EmptyString => None
      | String a s' => exec_from r (Some a) s'
      end
  end.

Definition exec (r : regex) (s : string) : option MatchState :=
  exec_from r None s.

Definition test (r : regex) (s : string) : bool :=
  match exec r s with Some _ => true | None => false end.

(** [m[n]] of a match. *)
Fixpoint capture (n : nat) (caps : list (nat * string)) : option string :=
  match caps with
  | [] => None
  | (k, s) :: caps' => if Nat.eqb k n then Some s else capture n caps'
  end.

End RegExp.

(* ===================================================================== *)
(** ** The analyzer: [analyze] *)
(* ===================================================================== *)

Import RegExp.

(** What a call can throw: the message of the exception. *)
Inductive Result (A : Type) : Type :=
| Ok (value : A)
| Throw (message : string).

Arguments Ok {A} value.
Arguments Throw {A} message.

(** A record of the list of changed files, as the GitHub API sends it; the
    parameter of [analyze] is an [any[]], so every field may be missing. *)
Record FileRecord : Type := mkFile {
  filename : option string;
  additions : option Z;
  deletions : option Z;
  changes : option Z;
  status : option string
}.

(** An element of [fileStats]: the numeric fields have their defaults. *)
Record FileStat : Type := mkStat {
  stat_filename : option string;
  stat_additions : Z;
  stat_deletions : Z;
  stat_changes : Z;
  stat_status : option string
}.

Record Metrics : Type := mkMetrics {
  totalFiles : Z;
  m_additions : Z;
  m_deletions : Z;
  churn : Z
}.

Record Risk : Type := mkRisk {
  level : string;
  score : Z;
  reasons : list string
}.

Record Hotspot : Type := mkHotspot {
  dir : string;
  h_churn : Z
}.

Record Report : Type := mkReport {
  metrics : Metrics;
  risk : Risk;
  hotspots : list Hotspot;
  biggestFiles : list FileStat
}.

(** The object the callback of [files.map] returns. *)
Definition file_stat (f : FileRecord) : FileStat :=
  mkStat (filename f) (JS.or_zero (additions f)) (JS.or_zero (deletions f))
         (JS.or_zero (changes f)) (status f).

(** The state [files.map] threads through its callback: the two
    accumulators and the array built so far. *)
Definition map_step (st : Z * Z * list FileStat) (f : FileRecord)
  : Z * Z * list FileStat :=
  let '(adds, dels, stats) := st in
  (adds + JS.or_zero (additions f), dels + JS.or_zero (deletions f),
   (stats ++ [file_stat f])%list).

(** [(a, b) => b.changes - a.changes] *)
Definition by_changes (a b : FileStat) : Z := stat_changes b - stat_changes a.

(** [(a, b) => b[1] - a[1]] *)
Definition by_churn (a b : string * Z) : Z := snd b - snd a.

(** [f.filename.split("/").slice(0, 2).join("/") || "(root)"] *)
Definition dir_of (name : string) : string :=
  JS.or_string (JS.join "/" (JS.slice 0 2 (JS.split "/" name))) "(root)".

(** The exception of a property read on [undefined], with the message V8
    gives it. *)
Definition split_of_undefined : string :=
  "Cannot read properties of undefined (reading 'split')".

(** One turn of the loop that fills [dirMap]. *)
Definition dir_step (acc : Result JS.Map) (f : FileStat) : Result JS.Map :=
  match acc with
  | Throw e => Throw e
  | Ok dirMap =>
      match stat_filename f with
      | None => Throw split_of_undefined
      | Some name =>
          let d := dir_of name in
          Ok (JS.map_set dirMap d (JS.or_zero (JS.map_get dirMap d) + stat_changes f))
      end
  end.

Record Pattern : Type := mkPattern {
  re : regex;
  pts : Z;
  reason : string
}.

(** The words of the four patterns. *)
Definition auth_words : list string :=
  ["auth"; "security"; "oauth"; "jwt"; "password"; "login"].

Definition db_words : list string :=
  ["migration"; "migrations"; "schema"; "db"; "database"].

Definition infra_words : list string :=
  ["github/workflows"; "ci"; "terraform"; "helm"; "k8s"; "kubernetes"].

Definition lock_words : list string :=
  ["package-lock.json"; "yarn.lock"; "pnpm-lock.yaml"; "requirements.txt";
   "poetry.lock"].

(** [/(auth|security|oauth|jwt|password|login)/i] *)
Definition auth_re : regex := Group 1 (alternatives auth_words).

(** [/(migration|migrations|schema|db|database)/i] *)
Definition db_re : regex := Group 1 (alternatives db_words).

(** [/(github\/workflows|ci|terraform|helm|k8s|kubernetes)/i] *)
Definition infra_re : regex := Group 1 (alternatives infra_words).

(** [/(package-lock\.json|yarn\.lock|pnpm-lock\.yaml|requirements\.txt|poetry\.lock)/i] *)
Definition lock_re : regex := Group 1 (alternatives lock_words).

Definition patterns : list Pattern :=
  [ mkPattern auth_re 3 "Touches auth/security related code";
    mkPattern db_re 3 "Touches database/migrations/schema";
    mkPattern infra_re 2 "Touches CI/infra config";
    mkPattern lock_re 2 "Touches dependency lockfiles" ].

Definition code_extensions : list string :=
  ["ts"; "tsx"; "js"; "jsx"; "py"; "java"; "go"; "cs"; "rb"; "php"].

(** [/\.(ts|tsx|js|jsx|py|java|go|cs|rb|php)$/i] *)
Definition code_re : regex :=
  Seq (Char ".") (Seq (Group 1 (alternatives code_extensions)) AssertEnd).

Definition test_words : list string := ["test"; "tests"; "__tests__"].

(** [/(^|\/)(test|tests|__tests__)\b|\.spec\.|\.test\./i] *)
Definition tests_re : regex :=
  Disj (Seq (Group 1 (Disj AssertStart (Char "/")))
            (Seq (Group 2 (alternatives test_words)) WordBoundary))
       (Disj (lit ".spec.") (lit ".test.")).

(** One turn of the loop over [patterns]. *)
Definition pattern_step (filenamesJoined : string) (st : Z * list string) (p : Pattern)
  : Z * list string :=
  let '(score, reasons) := st in
  if test (re p) filenamesJoined then (score + pts p, (reasons ++ [reason p])%list)
  else (score, reasons).

(** An [if] of the scoring that adds points and pushes a reason. *)
Definition flag (cond : bool) (points : Z) (why : string) (st : Z * list string)
  : Z * list string :=
  let '(score, reasons) := st in
  if cond then (score + points, (reasons ++ [why])%list) else (score, reasons).

Definition level_of (score : Z) : string :=
  if 6 <=? score then "high" else if 3 <=? score then "medium" else "low".

Definition analyze (files : list FileRecord) : Result Report :=
  let totalFiles := Z.of_nat (List.length files) in
  let '(additions, deletions, fileStats) := fold_left map_step files (0, 0, []) in
  let churn := additions + deletions in
  let biggestFiles := JS.slice 0 8 (JS.sort by_changes fileStats) in
  match fold_left dir_step fileStats (Ok []) with
  | Throw e => Throw e
  | Ok dirMap =>
      let hotspots :=
        List.map (fun e => mkHotspot (fst e) (snd e))
                 (JS.slice 0 8 (JS.sort by_churn dirMap)) in
      let st := (0, []) in
      let st := flag (25 <=? totalFiles) 2 "Large PR: many files changed" st in
      let st := flag (800 <=? churn) 2 "Large PR: high churn (additions + deletions)" st in
      let filenamesJoined :=
        JS.join JS.newline
                (List.map (fun f => JS.join_item (stat_filename f)) fileStats) in
      let st := fold_left (pattern_step filenamesJoined) patterns st in
      let hasCodeTouched :=
        existsb (fun f => test code_re (JS.to_string (stat_filename f))) fileStats in
      let hasTestsTouched :=
        existsb (fun f => test tests_re (JS.to_string (stat_filename f))) fileStats in
      let st := flag (hasCodeTouched && negb hasTestsTouched) 2
                     "Code changed but tests were not updated" st in
      let '(score, reasons) := st in
      Ok (mkReport (mkMetrics totalFiles additions deletions churn)
                   (mkRisk (level_of score) score reasons)
                   hotspots biggestFiles)
  end.

(* ===================================================================== *)
(** ** The route: [parsePrUrl], [listAllFiles], [toMarkdown], [POST] *)
(* ===================================================================== *)

Record PullRef : Type := mkPullRef {
  owner : string;
  repo : string;
  pull_number : N
}.

(** [/https?:\/\/(www\.)?github\.com\/([^/]+)\/([^/]+)\/pull\/(\d+)/i] *)
Definition pr_url_re : regex :=
  Seq (lit "http") (Seq (Opt (Char "s")) (Seq (lit "://")
  (Seq (Opt (Group 1 (lit "www.")))
  (Seq (lit "github.com/")
  (Seq (Group 2 (Plus (CharClass true ["/"%char]))) (Seq (Char "/")
  (Seq (Group 3 (Plus (CharClass true ["/"%char]))) (Seq (lit "/pull/")
       (Group 4 (Plus digit)))))))))).

(** The groups 2, 3 and 4 take part in every match of [pr_url_re]. *)
Definition parsePrUrl (input : option string) : option PullRef :=
  let url := JS.trim (JS.join_item input) in
  match exec pr_url_re url with
  | None => None
  | Some m =>
      Some (mkPullRef (JS.to_string (capture 2 (captures m)))
                      (JS.to_string (capture 3 (captures m)))
                      (JS.number_of_digits (JS.to_string (capture 4 (captures m)))))
  end.

(** The fields of the pull request the route reads. *)
Record PullData : Type := mkPullData {
  title : option string;
  html_url : option string;
  user_login : option string;
  base_repo_full_name : option string
}.

(** The two requests to the GitHub API. A request that fails rejects with
    an error: its answer is a [Throw]. *)
Variant githubE : Type -> Type :=
| GetPull (auth owner repo : string) (pull_number : N)
  : githubE (Result PullData)
| GetPullFiles (auth owner repo : string) (pull_number per_page page : N)
  : githubE (Result (list FileRecord)).

Definition listAllFiles (auth owner repo : string) (pull_number : N)
  : itree githubE (Result (list FileRecord)) :=
  let per_page := 100%N in
  ITree.iter
    (fun '(page, all) =>
       ITree.bind
         (ITree.trigger (GetPullFiles auth owner repo pull_number per_page page))
         (fun res =>
            match res with
            | Throw e => Ret (inr (Throw e))
            | Ok data =>
                let all := (all ++ data)%list in
                if (N.of_nat (List.length data) <? per_page)%N
                then Ret (inr (Ok all))
                else Ret (inl ((page + 1)%N, all))
            end))
    (1%N, []).

Definition lines (ls : list string) : string :=
  String.concat EmptyString (List.map (fun l => l ++ JS.newline) ls).

Definition toMarkdown (pr : PullData) (report : Report) : string :=
  let metrics := metrics report in
  let risk := risk report in
  let riskReasons :=
    match reasons risk with
    | [] => "- No major risk flags detected"
    | rs => JS.join JS.newline (List.map (fun r => "- " ++ r) rs)
    end in
  lines [
    "# PR Review Report";
    EmptyString;
    "**Title:** " ++ JS.to_string (title pr);
    "**Repo:** " ++ JS.to_string (base_repo_full_name pr);
    "**Author:** " ++ JS.to_string (user_login pr);
    "**URL:** " ++ JS.to_string (html_url pr);
    EmptyString;
    "## Metrics";
    "- Files changed: **" ++ JS.number_to_string (totalFiles metrics) ++ "**";
    "- Additions: **" ++ JS.number_to_string (m_additions metrics) ++ "**";
    "- Deletions: **" ++ JS.number_to_string (m_deletions metrics) ++ "**";
    "- Total churn: **" ++ JS.number_to_string (churn metrics) ++ "**";
    EmptyString;
    "## Risk";
    "**Level:** **" ++ JS.to_upper_case (level risk) ++ "** (score: "
      ++ JS.number_to_string (score risk) ++ ")";
    riskReasons;
    EmptyString;
    "## Hotspots (by churn)";
    JS.join JS.newline
      (List.map (fun h => "- " ++ dir h ++ ": " ++ JS.number_to_string (h_churn h))
                (hotspots report));
    EmptyString;
    "## Biggest changed files";
    JS.join JS.newline
      (List.map (fun f => "- `" ++ JS.to_string (stat_filename f) ++ "` (+"
                          ++ JS.number_to_string (stat_additions f) ++ "/-"
                          ++ JS.number_to_string (stat_deletions f) ++ ", changes: "
                          ++ JS.number_to_string (stat_changes f) ++ ")")
                (biggestFiles report))
  ].

(** The body of the request after [req.json()]: the call throws on a
    body that is not JSON; [prUrl] is a string or is missing. *)
Record Body : Type := mkBody { prUrl : option string }.

Record Request : Type := mkRequest { json : Result Body }.

(** [process.env] *)
Record Env : Type := mkEnv { GITHUB_TOKEN : option string }.

Record PrSummary : Type := mkPrSummary {
  pr_title : option string;
  pr_url : option string;
  pr_author : option string;
  pr_repo : option string
}.

Inductive ResponseBody : Type :=
| ErrorBody (error : string)
| ReportBody (pr : PrSummary) (report : Report) (markdown : string).

(** [NextResponse.json(body, { status })] *)
Record Response : Type := mkResponse {
  body : ResponseBody;
  http_status : N
}.

(** The [catch] clause: [e?.message || "Unknown error"] with status 500. *)
Definition caught (message : string) : Response :=
  mkResponse (ErrorBody (JS.or_string message "Unknown error")) 500.

Definition POST (env : Env) (req : Request) : itree githubE Response :=
  match json req with
  | Throw e => Ret (caught e)
  | Ok b =>
      match parsePrUrl (prUrl b) with
      | None => Ret (mkResponse (ErrorBody "Invalid GitHub PR URL") 400)
      | Some parsed =>
          let token := GITHUB_TOKEN env in
          if JS.falsy token
          then Ret (mkResponse (ErrorBody "Missing GITHUB_TOKEN in .env.local") 500)
          else
            let auth := JS.join_item token in
            ITree.bind
              (ITree.trigger (GetPull auth (owner parsed) (repo parsed) (pull_number parsed)))
              (fun res =>
                 match res with
                 | Throw e => Ret (caught e)
                 | Ok pr =>
                     ITree.bind
                       (listAllFiles auth (owner parsed) (repo parsed) (pull_number parsed))
                       (fun files =>
                          match files with
                          | Throw e => Ret (caught e)
                          | Ok files =>
                              match analyze files with
                              | Throw e => Ret (caught e)
                              | Ok report =>
                                  let markdown := toMarkdown pr report in
                                  Ret (mkResponse
                                         (ReportBody
                                            (mkPrSummary (title pr) (html_url pr)
                                                         (user_login pr)
                                                         (base_repo_full_name pr))
                                            report markdown)
                                         200)
                              end
                          end)
                 end)
      end
  end.

(* ===================================================================== *)
(** ** Vocabulary of the specification *)
(* ===================================================================== *)

(** The definitions of this part are not code of the route: they say, in
    terms of strings and lists, what the statements below are about. *)

Definition sum_Z (l : list Z) : Z := fold_right Z.add 0 l.

(** A numeric field with a missing value counted as 0. *)
Definition field_or_zero (v : option Z) : Z :=
  match v with Some n => n | None => 0 end.

Definition has_filename (f : FileRecord) : Prop := filename f <> None.

(** The names of the files of an input. *)
Definition names_of (files : list FileRecord) : list string :=
  List.map (fun f => JS.join_item (filename f)) files.

(** What is left of [s] after a prefix that is [w] up to the case of
    letters. *)
Fixpoint strip_ci (w s : string) : option string :=
  match w with
  | EmptyString => Some s
  | String ch w' =>
      match s with
      | String a s' => if same_char a ch then strip_ci w' s' else None
      | EmptyString => None
      end
  end.

Definition prefix_ci (w s : string) : bool :=
  match strip_ci w s with Some _ => true | None => false end.

Definition equal_ci (w s : string) : bool :=
  match strip_ci w s with Some EmptyString => true | _ => false end.

(** [s] contains [w], up to the case of letters. *)
Fixpoint occurs_ci (w s : string) : bool :=
  prefix_ci w s ||
  match s with
  | String _ s' => occurs_ci w s'
  | EmptyString => false
  end.

(** [s] ends with [w], up to the case of letters. *)
Fixpoint ends_with_ci (w s : string) : bool :=
  equal_ci w s ||
  match s with
  | String _ s' => ends_with_ci w s'
  | EmptyString => false
  end.

(** A name with one of the source-code extensions. *)
Definition has_code_extension (name : string) : bool :=
  existsb (fun e => ends_with_ci ("." ++ e) name) code_extensions.

(** A path segment that starts, up to case, with one of the test words,
    the word ending at a word boundary: at the end of the segment or before
    a character that is not a letter, a digit or an underscore. *)
Definition test_segment (seg : string) : bool :=
  existsb (fun w => match strip_ci w seg with
                    | Some t => negb (is_word (head t))
                    | None => false
                    end)
          test_words.

(** The test indicator as the code has it. *)
Definition test_indicator (name : string) : bool :=
  existsb test_segment (JS.split "/" name)
  || occurs_ci ".spec." name || occurs_ci ".test." name.

(** The test indicator as the specification words it: a path segment equal
    to one of the test words, or a name containing [.spec.] or [.test.]. *)
Definition spec_test_indicator (name : string) : bool :=
  existsb (fun seg => existsb (String.eqb seg) test_words) (JS.split "/" name)
  || occurs_ci ".spec." name || occurs_ci ".test." name.

Definition total_additions (files : list FileRecord) : Z :=
  sum_Z (List.map (fun f => field_or_zero (additions f)) files).

Definition total_deletions (files : list FileRecord) : Z :=
  sum_Z (List.map (fun f => field_or_zero (deletions f)) files).

(** The seven conditions of the scoring, in the order of evaluation. *)
Definition triggers (files : list FileRecord) : list bool :=
  let names := names_of files in
  [ 25 <=? Z.of_nat (List.length files);
    800 <=? total_additions files + total_deletions files;
    existsb (test auth_re) names;
    existsb (test db_re) names;
    existsb (test infra_re) names;
    existsb (test lock_re) names;
    existsb has_code_extension names && negb (existsb test_indicator names) ].

(** The seven reasons with their points, in the order of evaluation. *)
Definition canonical_reasons : list (string * Z) :=
  [ ("Large PR: many files changed", 2);
    ("Large PR: high churn (additions + deletions)", 2);
    ("Touches auth/security related code", 3);
    ("Touches database/migrations/schema", 3);
    ("Touches CI/infra config", 2);
    ("Touches dependency lockfiles", 2);
    ("Code changed but tests were not updated", 2) ].

(** The entries of a list that a list of booleans selects. *)
Fixpoint select {A : Type} (mask : list bool) (l : list A) : list A :=
  match mask, l with
  | b :: mask', x :: l' => if b then x :: select mask' l' else select mask' l'
  | _, _ => []
  end.

Fixpoint is_subsequence (l1 l2 : list string) : bool :=
  match l1, l2 with
  | [], _ => true
  | _ :: _, [] => false
  | x :: l1', y :: l2' =>
      if String.eqb x y then is_subsequence l1' l2' else is_subsequence l1 l2'
  end.

(** The points of a reason, read off the table. *)
Fixpoint points_of (table : list (string * Z)) (r : string) : Z :=
  match table with
  | [] => 0
  | (r', p) :: table' => if String.eqb r' r then p else points_of table' r
  end.

(** The keys of a list in the order of their first occurrence. *)
Fixpoint first_seen (l : list string) : list string :=
  match l with
  | [] => []
  | x :: l' => x :: filter (fun y => negb (String.eqb y x)) (first_seen l')
  end.

(** The directory key and the changes of every file of an input. *)
Definition dir_changes (files : list FileRecord) : list (string * Z) :=
  List.map (fun f => (dir_of (JS.join_item (filename f)), field_or_zero (changes f))) files.

Definition total_of (d : string) (l : list (string * Z)) : Z :=
  sum_Z (List.map snd (filter (fun e => String.eqb (fst e) d) l)).

(** The directories of an input in the order in which they are first
    met, each with the sum of the changes of its files. *)
Definition dir_totals (l : list (string * Z)) : list (string * Z) :=
  List.map (fun d => (d, total_of d l)) (first_seen (List.map fst l)).

(** [output] is [input] sorted by decreasing key, elements of equal key
    keeping the order they have in [input]. *)
Definition stable_sorted_desc {A : Type} (key : A -> Z) (input output : list A) : Prop :=
  Permutation input output
  /\ StronglySorted (fun a b => key b <= key a) output
  /\ forall v, filter (fun a => key a =? v) output = filter (fun a => key a =? v) input.

(** The positions of a pattern in an input: whether a position of the
    predicate [p] lies at or after the current one. *)
Fixpoint search (p : option ascii -> string -> bool) (prev : option ascii) (s : string) : bool :=
  p prev s ||
  match s with
  | String a s' => search p (Some a) s'
  | EmptyString => false
  end.

Definition matched (o : option MatchState) : bool :=
  match o with Some _ => true | None => false end.

(** The state after a run of pattern characters. *)
Fixpoint skip_ci (w : string) (x : MatchState) : option MatchState :=
  match w with
  | EmptyString => Some x
  | String ch w' =>
      match rest x with
      | String a s => if same_char a ch then skip_ci w' (advance x a s) else None
      | EmptyString => None
      end
  end.

Fixpoint last_char (w : string) : option ascii :=
  match w with
  | EmptyString => None
  | String c EmptyString => Some c
  | String _ w' => last_char w'
  end.

(** The words a pattern may look for across the joined names: not empty
    and without a line feed. *)
Definition plain_word (w : string) : bool :=
  negb (String.eqb w EmptyString)
  && forallb (fun ch => negb (same_char "010" ch)) (list_ascii_of_string w).

(** No character of the word is a slash. *)
Definition slash_free (w : string) : bool :=
  forallb (fun ch => negb (same_char "/" ch)) (list_ascii_of_string w).

(** One turn of the loop that fills [dirMap], on a name that is there. *)
Definition add_change (m : JS.Map) (e : string * Z) : JS.Map :=
  JS.map_set m (fst e) (JS.or_zero (JS.map_get m (fst e)) + snd e).

(** The score and the reasons that the conditions of an input select. *)
Definition score_of (files : list FileRecord) : Z :=
  sum_Z (select (triggers files) (List.map snd canonical_reasons)).

Definition reasons_of (files : list FileRecord) : list string :=
  select (triggers files) (List.map fst canonical_reasons).

(** The report of an input whose records all have a name. *)
Definition report_of (files : list FileRecord) : Report :=
  mkReport
    (mkMetrics (Z.of_nat (List.length files)) (total_additions files)
               (total_deletions files)
               (total_additions files + total_deletions files))
    (mkRisk (level_of (score_of files)) (score_of files) (reasons_of files))
    (List.map (fun e => mkHotspot (fst e) (snd e))
              (firstn 8 (JS.sort by_churn (fold_left add_change (dir_changes files) []))))
    (firstn 8 (JS.sort by_changes (List.map file_stat files))).

(* ===================================================================== *)
(** ** Sample inputs *)
(* ===================================================================== *)

Definition changed (name : string) (adds dels : Z) : FileRecord :=
  mkFile (Some name) (Some adds) (Some dels) (Some (adds + dels)) (Some "modified").

(** The example of the specification: one file of the login code. *)
Definition login_change : list FileRecord := [changed "src/auth/login.ts" 50 10].

(** Records without their numeric fields and status. *)
Definition bare_records : list FileRecord :=
  [ mkFile (Some "docs/guide.md") None None None None;
    mkFile (Some "src/app.ts") (Some 4) None (Some 4) (Some "added") ].

(** A record without its filename. *)
Definition nameless_record : list FileRecord :=
  [ mkFile None (Some 1) (Some 2) (Some 3) (Some "modified") ].

(** A file at the root of the repository. *)
Definition root_change : list FileRecord := [changed "README.md" 3 2].

Definition code_change : list FileRecord := [changed "src/app.ts" 5 0].

Definition test_change : FileRecord := changed "src/app.test.ts" 1 0.

Definition docs_change : FileRecord := changed "docs/notes.md" 2 1.

(** A source file in a directory whose name starts with a test word. *)
Definition helper_change : list FileRecord := [changed "src/test-helpers/util.ts" 7 0].

(** Thirty files of one change each that no check looks for. *)
Definition thirty_files : list FileRecord :=
  List.map (fun i => changed ("file" ++ JS.number_to_string (Z.of_nat i) ++ ".md") 1 0)
           (seq 0 30).

(** Twenty-five files, one of them large and named for every check. *)
Definition every_flag : list FileRecord :=
  (changed "ci/auth/db/yarn.lock.ts" 700 100 :: firstn 24 thirty_files)%list.

Definition auth_doc_change : list FileRecord := [changed "docs/auth.md" 1 0].

Definition auth_db_change : list FileRecord := [changed "db/auth.md" 1 0].

(** Ten directories of equal changes and one file that sorts first. *)
Definition many_dirs : list FileRecord :=
  [ changed "a/x/1" 1 0; changed "b/x/1" 1 0; changed "a/x/2" 1 0;
    changed "c/x/1" 2 0; changed "d/x/1" 2 0; changed "e/x/1" 2 0;
    changed "f/x/1" 2 0; changed "g/x/1" 2 0; changed "h/x/1" 2 0;
    changed "i/x/1" 2 0; changed "j/x/1" 9 0 ].

Definition good_request : Request :=
  mkRequest (Ok (mkBody (Some "https://github.com/vercel/next.js/pull/1"))).

Definition bad_request : Request :=
  mkRequest (Ok (mkBody (Some "https://example.com/vercel/next.js/pull/1"))).

(* ===================================================================== *)
(** ** Vocabulary of the further properties *)
(* ===================================================================== *)


(** The records of an input that lie in a directory. *)
Definition files_of_dir (d : string) (files : list FileRecord) : list FileRecord :=
  filter (fun f => String.eqb (dir_of (JS.join_item (filename f))) d) files.

Definition total_changes (files : list FileRecord) : Z :=
  sum_Z (List.map (fun f => field_or_zero (changes f)) files).

(** A request to the GitHub API, as a value. *)
Inductive Call : Type :=
| PullCall (auth owner repo : string) (pull_number : N)
| FilesCall (auth owner repo : string) (pull_number per_page page : N).

Definition call_of {T : Type} (e : githubE T) : Call :=
  match e with
  | GetPull auth owner repo n => PullCall auth owner repo n
  | GetPullFiles auth owner repo n per_page page =>
      FilesCall auth owner repo n per_page page
  end.

(** The GitHub API as a function from requests to answers. *)
Definition Api : Type := forall T : Type, githubE T -> T.

(** Running against an API: every request is answered and written to the
    log of the calls. *)
Definition github (api : Api) : githubE ~> Monads.stateT (list Call) (itree void1) :=
  fun T e log => Ret ((log ++ [call_of e])%list, api T e).

Definition run {R : Type} (api : Api) (t : itree githubE R) (log : list Call)
  : itree void1 (list Call * R) :=
  interp_state (github api) t log.

(** The requests for the pages [first], [first + 1], ... of the files. *)
Fixpoint page_calls (auth owner repo : string) (n : N) (first : N) (count : nat)
  : list Call :=
  match count with
  | O => []
  | S count' =>
      FilesCall auth owner repo n 100 first
      :: page_calls auth owner repo n (first + 1) count'
  end.

(** The API answers the pages from [page] on with the full pages
    [pages]: a page is full from a hundred records on. *)
Fixpoint full_pages (api : Api) (auth owner repo : string) (n : N) (page : N)
         (pages : list (list FileRecord)) : Prop :=
  match pages with
  | [] => True
  | p :: pages' =>
      api _ (GetPullFiles auth owner repo n 100 page) = Ok p
      /\ (100 <= List.length p)%nat
      /\ full_pages api auth owner repo n (page + 1) pages'
  end.

(** The page after the full pages ends the listing: it is short, or the
    request for it fails. *)
Definition ends_listing (answer : Result (list FileRecord)) : Prop :=
  match answer with
  | Ok data => (List.length data < 100)%nat
  | Throw _ => True
  end.

(** What [listAllFiles] has in the end. *)
Definition listed (pages : list (list FileRecord)) (answer : Result (list FileRecord))
  : Result (list FileRecord) :=
  match answer with
  | Ok data => Ok (List.concat pages ++ data)%list
  | Throw e => Throw e
  end.

(** An API with two full pages and a short one. *)
Definition full_page (tag : string) : list FileRecord :=
  List.map (fun i => changed (tag ++ "/" ++ JS.number_to_string (Z.of_nat i) ++ ".md") 1 0)
           (seq 0 100).

Definition three_pages : Api :=
  fun T e =>
    match e in githubE T return T with
    | GetPull _ _ _ _ =>
        Ok (mkPullData (Some "Add pages") (Some "https://github.com/vercel/next.js/pull/1")
                       (Some "octocat") (Some "vercel/next.js"))
    | GetPullFiles _ _ _ _ _ page =>
        if (page =? 1)%N then Ok (full_page "a")
        else if (page =? 2)%N then Ok (full_page "b")
        else Ok login_change
    end.

(** An API that fails on every request. *)
Definition failing_api (message : string) : Api :=
  fun T e =>
    match e in githubE T return T with
    | GetPull _ _ _ _ => Throw message
    | GetPullFiles _ _ _ _ _ _ => Throw message
    end.

(** An API whose list of files has a record without filename. *)
Definition nameless_api : Api :=
  fun T e =>
    match e in githubE T return T with
    | GetPull _ _ _ _ => Ok (mkPullData None None None None)
    | GetPullFiles _ _ _ _ _ _ => Ok nameless_record
    end.

(** The response of the route to a pull request and the list of its
    files. *)
Definition respond (pr : PullData) (files : Result (list FileRecord)) : Response :=
  match files with
  | Throw e => caught e
  | Ok files =>
      match analyze files with
      | Throw e => caught e
      | Ok report =>
          mkResponse
            (ReportBody (mkPrSummary (title pr) (html_url pr) (user_login pr)
                                     (base_repo_full_name pr))
                        report (toMarkdown pr report))
            200
      end
  end.

Definition with_token (token : string) : Env := mkEnv (Some token).

(** A response as the route can give it: a report with the status 200, the
    refusal of the URL with the status 400, or a message that is not empty
    with the status 500. *)
Definition well_formed_response (resp : Response) : Prop :=
  (http_status resp = 200%N
   /\ exists pr files rep,
        analyze files = Ok rep
        /\ body resp
           = ReportBody (mkPrSummary (title pr) (html_url pr) (user_login pr)
                                     (base_repo_full_name pr))
                        rep (toMarkdown pr rep))
  \/ (http_status resp = 400%N /\ body resp = ErrorBody "Invalid GitHub PR URL")
  \/ (http_status resp = 500%N
      /\ exists message, message <> EmptyString /\ body resp = ErrorBody message).

(** What a pattern can match: [Matches r x y] when [r] takes the state
    [x] to the state [y]; the order in which the matcher tries the
    possibilities is left out. *)
Inductive Matches : regex -> MatchState -> MatchState -> Prop :=
| M_Empty x : Matches Empty x x
| M_Char ch x a s :
    rest x = String a s -> same_char a ch = true ->
    Matches (Char ch) x (advance x a s)
| M_Class invert members x a s :
    rest x = String a s ->
    xorb (existsb (fun m => same_char m a) members) invert = true ->
    Matches (CharClass invert members) x (advance x a s)
| M_Seq r1 r2 x y z :
    Matches r1 x y -> Matches r2 y z -> Matches (Seq r1 r2) x z
| M_DisjL r1 r2 x y : Matches r1 x y -> Matches (Disj r1 r2) x y
| M_DisjR r1 r2 x y : Matches r2 x y -> Matches (Disj r1 r2) x y
| M_Group n r x y : Matches r x y -> Matches (Group n r) x (set_capture n x y)
| M_OptSome r x y :
    Matches r x y -> progressed x y = true -> Matches (Opt r) x y
| M_OptNone r x : Matches (Opt r) x x
| M_PlusOne r x y : Matches r x y -> Matches (Plus r) x y
| M_PlusMore r x y z :
    Matches (Plus r) x y -> Matches r y z -> progressed y z = true ->
    Matches (Plus r) x z
| M_Start x : before x = None -> Matches AssertStart x x
| M_End x : rest x = EmptyString -> Matches AssertEnd x x
| M_Boundary x :
    xorb (is_word (before x)) (is_word (head (rest x))) = true ->
    Matches WordBoundary x x.

(** [y] is the first state that the matcher of [r] hands to its
    continuation from [x]: when the continuation accepts [y], its result is
    the result of the match. *)
Definition Firstly (r : regex) (x y : MatchState) : Prop :=
  forall (c : Continuation) (m : MatchState), c y = Some m -> matcher r x c = Some m.

Definition is_digit (c : ascii) : bool :=
  let n := N_of_ascii c in ((48 <=? n) && (n <=? 57))%N.

Definition all_digits (s : string) : bool :=
  forallb is_digit (list_ascii_of_string s).

Definition no_slash (s : string) : bool :=
  forallb (fun c => negb (Ascii.eqb c "/")) (list_ascii_of_string s).

(** The strings of white space. *)
Definition white (s : string) : bool :=
  forallb JS.is_white_space (list_ascii_of_string s).

(** The start of the URL of a pull request. *)
Definition pr_scheme (secure : bool) : string :=
  if secure then "https://" else "http://".

Definition pr_host (www : bool) : string :=
  if www then "www.github.com/" else "github.com/".

(** The characters of a class of a pattern. *)
Definition in_class (invert : bool) (members : list ascii) (a : ascii) : bool :=
  xorb (existsb (fun m => same_char m a) members) invert.


(** The loop of the matcher of [Plus r], after the first iteration. *)
Fixpoint more_of (r : regex) (c : Continuation) (fuel : nat) (x : MatchState)
  : option MatchState :=
  match fuel with
  | O => c x
  | S fuel' =>
      or_else
        (matcher r x (fun y => if progressed x y then more_of r c fuel' y else None))
        (c x)
  end.

(** The strings in which a character does not occur. *)
Definition lacks (c : ascii) (s : string) : bool :=
  forallb (fun a => negb (Ascii.eqb a c)) (list_ascii_of_string s).

(** The login code of the example, as a new file. *)
Definition login_added : list FileRecord :=
  [mkFile (Some "src/auth/login.ts") (Some 50) (Some 10) (Some 60) (Some "added")].

Definition sample_pull : PullData :=
  mkPullData (Some "Add login") (Some "https://github.com/vercel/next.js/pull/1")
             (Some "octocat") (Some "vercel/next.js").

(** The 256 cases of a code unit. *)
Ltac each_ascii a := destruct a as [[|] [|] [|] [|] [|] [|] [|] [|]].

(* ===================================================================== *)
(** ** Facts about the built-ins *)
(* ===================================================================== *)

Lemma or_zero_field (v : option Z) : JS.or_zero v = field_or_zero v.
Proof.
  destruct v as [n|]; simpl; trivial.
  destruct (Z.eqb_spec n 0); congruence.
Qed.

Lemma split_not_nil (sep : ascii) (s : string) : JS.split sep s <> [].
Proof.
  induction s as [|c s IH]; simpl; [discriminate|].
  destruct (Ascii.eqb c sep); [discriminate|].
  destruct (JS.split sep s); [contradiction|discriminate].
Qed.

Lemma existsb_orb {A : Type} (f g : A -> bool) (l : list A) :
  existsb (fun a => f a || g a) l = existsb f l || existsb g l.
Proof.
  induction l as [|a l IH]; simpl; trivial.
  rewrite IH. destruct (f a), (g a), (existsb f l); reflexivity.
Qed.

Lemma existsb_swap {A B : Type} (f : A -> B -> bool) (la : list A) (lb : list B) :
  existsb (fun a => existsb (f a) lb) la = existsb (fun b => existsb (fun a => f a b) la) lb.
Proof.
  induction la as [|a la IH]; simpl.
  - induction lb; simpl; auto.
  - rewrite IH. symmetry. apply existsb_orb.
Qed.

Lemma existsb_pointwise {A : Type} (f g : A -> bool) (l : list A) :
  (forall a, f a = g a) -> existsb f l = existsb g l.
Proof.
  intros H. induction l as [|a l IH]; simpl; [reflexivity|].
  now rewrite H, IH.
Qed.

Lemma existsb_false {A : Type} (l : list A) : existsb (fun _ => false) l = false.
Proof. induction l; simpl; auto. Qed.

Lemma existsb_andb_l {A : Type} (b : bool) (f : A -> bool) (l : list A) :
  existsb (fun a => b && f a) l = b && existsb f l.
Proof.
  destruct b; simpl; [|apply existsb_false].
  apply existsb_pointwise. reflexivity.
Qed.

(* ===================================================================== *)
(** ** What the vocabulary on strings says *)
(* ===================================================================== *)

Lemma equal_ci_letters (w x : string) :
  equal_ci w x = true
  <-> List.map Canonicalize (list_ascii_of_string x)
      = List.map Canonicalize (list_ascii_of_string w).
Proof.
  unfold equal_ci. revert x. induction w as [|ch w IH]; intros x.
  - destruct x; simpl; split; (reflexivity || discriminate).
  - destruct x as [|a x]; simpl; [split; discriminate|].
    unfold same_char. destruct (N.eqb_spec (Canonicalize a) (Canonicalize ch)) as [E|E].
    + rewrite IH, E. split; [intros ->; reflexivity|]. intros H. now inversion H.
    + split; [discriminate|]. intros H. inversion H. contradiction.
Qed.

Lemma strip_ci_split (w s t : string) :
  strip_ci w s = Some t <-> exists x, s = x ++ t /\ equal_ci w x = true.
Proof.
  unfold equal_ci. revert s. induction w as [|ch w IH]; intros s.
  - simpl. split.
    + intros H. inversion H. exists EmptyString. split; reflexivity.
    + intros [x [-> H]]. destruct x; [reflexivity|discriminate].
  - destruct s as [|a s]; simpl.
    + split; [discriminate|]. intros [x [H1 H2]].
      destruct x; [discriminate|discriminate].
    + split.
      * destruct (same_char a ch) eqn:E; [|discriminate]. intros H.
        apply IH in H as [x [-> Hx]]. exists (String a x). split; [reflexivity|].
        simpl. now rewrite E.
      * intros [x [H1 H2]]. destruct x as [|a' x]; [discriminate|].
        simpl in H1, H2. inversion H1; subst a' s.
        destruct (same_char a ch); [|discriminate].
        apply IH. now exists x.
Qed.

(** [occurs_ci]: somewhere in the string stands the word, up to case. *)
Lemma occurs_ci_somewhere (w s : string) :
  occurs_ci w s = true
  <-> exists u x v, s = u ++ x ++ v /\ equal_ci w x = true.
Proof.
  induction s as [|a s IH]; cbn [occurs_ci]; rewrite orb_true_iff.
  - split.
    + intros [H|H]; [|discriminate]. unfold prefix_ci in H.
      destruct (strip_ci w EmptyString) as [t|] eqn:E; [|discriminate].
      apply strip_ci_split in E as [x [Hx Hw]].
      exists EmptyString, x, t. now split.
    + intros [u [x [v [H Hw]]]]. left.
      destruct u; [|discriminate]. simpl in H.
      unfold prefix_ci. destruct (strip_ci w EmptyString) eqn:E; [reflexivity|].
      assert (Some v = None); [|discriminate].
      rewrite <- E. symmetry. apply strip_ci_split. now exists x.
  - split.
    + intros [H|H].
      * unfold prefix_ci in H.
        destruct (strip_ci w (String a s)) as [t|] eqn:E; [|discriminate].
        apply strip_ci_split in E as [x [Hx Hw]].
        exists EmptyString, x, t. now split.
      * apply IH in H as [u [x [v [-> Hw]]]].
        exists (String a u), x, v. now split.
    + intros [u [x [v [H Hw]]]]. destruct u as [|a' u].
      * left. simpl in H. unfold prefix_ci.
        destruct (strip_ci w (String a s)) eqn:E; [reflexivity|].
        assert (Some v = None); [|discriminate].
        rewrite <- E. symmetry. apply strip_ci_split. now exists x.
      * right. simpl in H. inversion H; subst a' s. apply IH. now exists u, x, v.
Qed.

(** [ends_with_ci]: the string ends with the word, up to case. *)
Lemma ends_with_ci_suffix (w s : string) :
  ends_with_ci w s = true
  <-> exists u x, s = u ++ x /\ equal_ci w x = true.
Proof.
  induction s as [|a s IH]; cbn [ends_with_ci]; rewrite orb_true_iff.
  - split.
    + intros [H|H]; [|discriminate]. now exists EmptyString, EmptyString.
    + intros [u [x [H Hw]]]. left. destruct u; [|discriminate].
      simpl in H. now subst x.
  - split.
    + intros [H|H].
      * now exists EmptyString, (String a s).
      * apply IH in H as [u [x [-> Hw]]]. now exists (String a u), x.
    + intros [u [x [H Hw]]]. destruct u as [|a' u].
      * left. simpl in H. now subst x.
      * right. simpl in H. inversion H; subst a' s. apply IH. now exists u, x.
Qed.

(* ===================================================================== *)
(** ** Facts about the matcher *)
(* ===================================================================== *)

Section MatcherFacts.

Lemma matched_or_else a b : matched (or_else a b) = matched a || matched b.
Proof. destruct a; reflexivity. Qed.

Lemma matcher_lit (w : string) (x : MatchState) (c : Continuation) :
  matcher (lit w) x c = match skip_ci w x with Some y => c y | None => None end.
Proof.
  revert x. induction w as [|ch w IH]; intros x; [reflexivity|].
  destruct w as [|ch' w].
  - simpl. unfold char_step. destruct (rest x) as [|a s]; trivial.
    destruct (same_char a ch); reflexivity.
  - change (lit (String ch (String ch' w))) with (Seq (Char ch) (lit (String ch' w))).
    cbn [matcher skip_ci]. unfold char_step at 1.
    destruct (rest x) as [|a s]; trivial.
    destruct (same_char a ch); auto.
Qed.

Lemma matched_alternatives (ws : list string) (x : MatchState) (c : Continuation) :
  ws <> [] ->
  matched (matcher (alternatives ws) x c)
  = existsb (fun w => match skip_ci w x with
                      | Some y => matched (c y)
                      | None => false
                      end) ws.
Proof.
  unfold alternatives. induction ws as [|w ws IH]; [congruence|]. intros _.
  destruct ws as [|w' ws].
  - simpl. rewrite matcher_lit, orb_false_r. destruct (skip_ci w x); reflexivity.
  - change (disj (List.map lit (w :: w' :: ws)))
      with (Disj (lit w) (disj (List.map lit (w' :: ws)))).
    cbn [matcher]. rewrite matched_or_else, IH by discriminate.
    rewrite matcher_lit. cbn [existsb]. destruct (skip_ci w x); reflexivity.
Qed.

(** A run of pattern characters moves the state along the input and
    leaves the captures alone. *)
Lemma skip_ci_strip (w : string) (x : MatchState) :
  match skip_ci w x, strip_ci w (rest x) with
  | Some y, Some t => rest y = t /\ captures y = captures x
  | None, None => True
  | _, _ => False
  end.
Proof.
  revert x. induction w as [|ch w IH]; intros x; simpl; [auto|].
  destruct (rest x) as [|a s] eqn:E; trivial.
  destruct (same_char a ch); trivial.
  specialize (IH (advance x a s)). simpl in IH. exact IH.
Qed.

Lemma skip_ci_matched (w : string) (x : MatchState) :
  matched (skip_ci w x) = prefix_ci w (rest x).
Proof.
  unfold prefix_ci. pose proof (skip_ci_strip w x) as H.
  destruct (skip_ci w x), (strip_ci w (rest x)); simpl; tauto.
Qed.

Lemma exec_from_search (r : regex) (prev : option ascii) (s : string) :
  matched (exec_from r prev s)
  = search (fun p t => matched (matcher r (mkState p t []) Some)) prev s.
Proof.
  revert prev. induction s as [|a s IH]; intros prev; simpl.
  - destruct (matcher r _ Some); reflexivity.
  - destruct (matcher r _ Some); simpl; [reflexivity|]. apply IH.
Qed.

Lemma test_search (r : regex) (s : string) :
  test r s = search (fun p t => matched (matcher r (mkState p t []) Some)) None s.
Proof. unfold test, exec. rewrite <- exec_from_search. reflexivity. Qed.

Lemma search_ext (p q : option ascii -> string -> bool) :
  (forall prev s, p prev s = q prev s) ->
  forall prev s, search p prev s = search q prev s.
Proof.
  intros H prev s. revert prev.
  induction s as [|a s IH]; intros prev; simpl; rewrite H; [reflexivity|].
  now rewrite IH.
Qed.

Lemma search_existsb {A : Type} (f : A -> string -> bool) (g : A -> string -> bool) (l : list A) :
  (forall a s, g a s = f a s || match s with String _ s' => g a s' | EmptyString => false end) ->
  forall prev s, search (fun _ t => existsb (fun a => f a t) l) prev s
                 = existsb (fun a => g a s) l.
Proof.
  intros Hg prev s. revert prev.
  induction s as [|c s IH]; intros prev; simpl.
  - rewrite orb_false_r. apply existsb_pointwise. intros a. rewrite Hg. now rewrite orb_false_r.
  - rewrite IH, <- existsb_orb. apply existsb_pointwise. intros a. now rewrite (Hg a (String c s)).
Qed.

(** A group of alternative words matches where one of the words occurs. *)
Lemma test_words_occurs (n : nat) (ws : list string) (s : string) :
  ws <> [] ->
  test (Group n (alternatives ws)) s = existsb (fun w => occurs_ci w s) ws.
Proof.
  intros Hws. rewrite test_search.
  rewrite (search_ext _ (fun _ t => existsb (fun w => prefix_ci w t) ws)).
  - apply search_existsb. intros w t. destruct t; reflexivity.
  - intros prev t. cbn [matcher]. rewrite matched_alternatives by assumption.
    apply existsb_pointwise. intros w.
    pose proof (skip_ci_matched w (mkState prev t [])) as H. simpl in H.
    rewrite <- H. destruct (skip_ci w _); reflexivity.
Qed.

End MatcherFacts.

(* ===================================================================== *)
(** ** Words across the joined names *)
(* ===================================================================== *)

Section JoinedNames.

Variable w : string.
Hypothesis w_plain : plain_word w = true.

Lemma plain_word_strip_newline (v : string) : strip_ci w (String "010" v) = None.
Proof using w_plain.
  unfold plain_word in w_plain. apply andb_true_iff in w_plain as [Hne Hnl].
  destruct w as [|ch w']; [discriminate|]. simpl in Hnl |- *.
  apply andb_true_iff in Hnl as [Hch _].
  destruct (same_char "010" ch); [discriminate|reflexivity].
Qed.

Lemma prefix_ci_before_newline (u v : string) :
  prefix_ci w (u ++ String "010" v) = prefix_ci w u.
Proof using w_plain.
  unfold plain_word in w_plain. apply andb_true_iff in w_plain as [_ Hnl].
  unfold prefix_ci. revert u.
  induction w as [|ch w' IH]; intros u; [reflexivity|].
  simpl in Hnl. apply andb_true_iff in Hnl as [Hch Hnl].
  destruct u as [|a u]; simpl.
  - destruct (same_char "010" ch); [discriminate|reflexivity].
  - destruct (same_char a ch); [|reflexivity]. now apply IH.
Qed.

Lemma occurs_ci_empty : occurs_ci w EmptyString = false.
Proof using w_plain.
  unfold plain_word in w_plain. apply andb_true_iff in w_plain as [Hne _].
  destruct w; [discriminate|reflexivity].
Qed.

Lemma occurs_ci_across_newline (u v : string) :
  occurs_ci w (u ++ String "010" v) = occurs_ci w u || occurs_ci w v.
Proof using w_plain.
  induction u as [|a u IH].
  - rewrite occurs_ci_empty. simpl. unfold prefix_ci.
    now rewrite plain_word_strip_newline.
  - change (String a u ++ String "010" v) with (String a (u ++ String "010" v)).
    cbn [occurs_ci]. rewrite IH.
    rewrite <- (prefix_ci_before_newline (String a u) v).
    now rewrite orb_assoc.
Qed.

Lemma occurs_ci_joined (names : list string) :
  occurs_ci w (JS.join JS.newline names) = existsb (occurs_ci w) names.
Proof using w_plain.
  unfold JS.join. induction names as [|x names IH].
  - apply occurs_ci_empty.
  - destruct names as [|y names].
    + simpl. now rewrite orb_false_r.
    + change (String.concat JS.newline (x :: y :: names))
        with (x ++ String "010" (String.concat JS.newline (y :: names))).
      rewrite occurs_ci_across_newline, IH. reflexivity.
Qed.

End JoinedNames.

(** A pattern of plain words matches the joined names exactly when it
    matches one of the names. *)
Lemma test_words_joined (n : nat) (ws : list string) (names : list string) :
  ws <> [] -> forallb plain_word ws = true ->
  test (Group n (alternatives ws)) (JS.join JS.newline names)
  = existsb (test (Group n (alternatives ws))) names.
Proof.
  intros Hne Hplain.
  rewrite test_words_occurs by assumption.
  rewrite (existsb_pointwise (test (Group n (alternatives ws)))
             (fun name => existsb (fun w => occurs_ci w name) ws))
    by (intros name; now apply test_words_occurs).
  rewrite <- (existsb_swap (fun w name => occurs_ci w name)).
  rewrite forallb_forall in Hplain.
  clear Hne. induction ws as [|w ws IH]; [reflexivity|]. simpl.
  rewrite occurs_ci_joined by (apply Hplain; now left).
  f_equal. apply IH. intros x Hx. apply Hplain. now right.
Qed.

(* ===================================================================== *)
(** ** The two patterns of the code-without-tests check *)
(* ===================================================================== *)

Lemma same_char_slash (a : ascii) : same_char a "/" = Ascii.eqb a "/".
Proof. each_ascii a; reflexivity. Qed.

Lemma is_word_char_canonical (a : ascii) :
  is_word_char a
  = (let n := Canonicalize a in
     ((65 <=? n) && (n <=? 90) || (48 <=? n) && (n <=? 57) || (n =? 95))%N).
Proof. each_ascii a; reflexivity. Qed.

Lemma same_char_is_word (a ch : ascii) :
  same_char a ch = true -> is_word_char a = is_word_char ch.
Proof.
  unfold same_char. intros H. apply N.eqb_eq in H.
  rewrite !is_word_char_canonical. cbv zeta. now rewrite H.
Qed.

Lemma last_char_some (c : ascii) (w : string) : exists d, last_char (String c w) = Some d.
Proof.
  revert c. induction w as [|c' w IH]; intros c; [now exists c|].
  destruct (IH c') as [d Hd]. exists d. exact Hd.
Qed.

Lemma skip_ci_before (w : string) (x y : MatchState) :
  skip_ci w x = Some y ->
  is_word (before y)
  = match last_char w with Some c => is_word_char c | None => is_word (before x) end.
Proof.
  revert x. induction w as [|ch w IH]; intros x H.
  - simpl in H. now inversion H.
  - simpl in H. destruct (rest x) as [|a s]; [discriminate|].
    destruct (same_char a ch) eqn:E; [|discriminate].
    apply IH in H. rewrite H. destruct w as [|ch' w].
    + simpl. now apply same_char_is_word.
    + change (last_char (String ch (String ch' w))) with (last_char (String ch' w)).
      destruct (last_char_some ch' w) as [d Hd]. now rewrite Hd.
Qed.

(** The continuation of a group of words is entered from the state at the
    end of a word, with one more capture. *)
Lemma matched_group_words (n : nat) (ws : list string) (x : MatchState)
      (c : Continuation) (k : bool -> string -> bool) :
  ws <> [] ->
  (forall y, matched (c y) = k (is_word (before y)) (rest y)) ->
  matched (matcher (Group n (alternatives ws)) x c)
  = existsb (fun w => match skip_ci w x with
                      | Some y => k (is_word (before y)) (rest y)
                      | None => false
                      end) ws.
Proof.
  intros Hne Hc. cbn [matcher]. rewrite matched_alternatives by assumption.
  apply existsb_pointwise. intros w. destruct (skip_ci w x) as [y|]; [|reflexivity].
  now rewrite Hc.
Qed.
Lemma matcher_code_re (prev : option ascii) (t : string) :
  matched (matcher code_re (mkState prev t []) Some)
  = existsb (fun e => equal_ci ("." ++ e) t) code_extensions.
Proof.
  unfold code_re. cbn [matcher]. unfold char_step. cbn [rest].
  destruct t as [|a s].
  - now rewrite existsb_false.
  - rewrite (existsb_pointwise _ (fun e => same_char a "." && equal_ci e s)).
    2:{ intros e. unfold equal_ci. simpl. destruct (same_char a "."); reflexivity. }
    rewrite existsb_andb_l. destruct (same_char a "."); [|reflexivity].
    rewrite andb_true_l.
    change (matched (matcher (Group 1 (alternatives code_extensions)) (advance (mkState prev (String a s) []) a s) (fun z => matcher AssertEnd z Some)) = existsb (fun e : string => equal_ci e s) code_extensions).
    rewrite (matched_group_words _ _ _ _ (fun _ r => match r with EmptyString => true | _ => false end)); [|discriminate|].
    + apply existsb_pointwise. intros e. unfold equal_ci.
      pose proof (skip_ci_strip e (advance (mkState prev (String a s) []) a s)) as H.
      cbn [advance rest] in H.
      destruct (skip_ci e _) as [y|], (strip_ci e s) as [r|]; try tauto.
      destruct H as [H _]. now rewrite H.
    + intros y. cbn [matcher]. destruct (rest y); reflexivity.
Qed.

Lemma test_code_re (name : string) : test code_re name = has_code_extension name.
Proof.
  rewrite test_search.
  rewrite (search_ext _ (fun _ t => existsb (fun e => equal_ci ("." ++ e) t) code_extensions))
    by apply matcher_code_re.
  unfold has_code_extension.
  apply (search_existsb (fun e t => equal_ci ("." ++ e) t)
                        (fun e t => ends_with_ci ("." ++ e) t)).
  intros e t. destruct t; reflexivity.
Qed.

Lemma matcher_Disj (r1 r2 : regex) (x : MatchState) (c : Continuation) :
  matcher (Disj r1 r2) x c = or_else (matcher r1 x c) (matcher r2 x c).
Proof. reflexivity. Qed.

Lemma matcher_Seq (r1 r2 : regex) (x : MatchState) (c : Continuation) :
  matcher (Seq r1 r2) x c = matcher r1 x (fun y => matcher r2 y c).
Proof. reflexivity. Qed.

Lemma matcher_Group (n : nat) (r : regex) (x : MatchState) (c : Continuation) :
  matcher (Group n r) x c = matcher r x (fun y => c (set_capture n x y)).
Proof. reflexivity. Qed.

Lemma word_then_boundary (w : string) (c : ascii) (x : MatchState) :
  last_char w = Some c -> is_word_char c = true ->
  match skip_ci w x with
  | Some y => xorb (is_word (before y)) (is_word (head (rest y)))
  | None => false
  end
  = match strip_ci w (rest x) with
    | Some t => negb (is_word (head t))
    | None => false
    end.
Proof.
  intros Hlast Hc. pose proof (skip_ci_strip w x) as H.
  destruct (skip_ci w x) as [y|] eqn:E, (strip_ci w (rest x)) as [t|]; try tauto.
  destruct H as [H _]. rewrite (skip_ci_before _ _ _ E), Hlast, Hc, H. reflexivity.
Qed.

(** Where the pattern of the test indicator matches: at the start of the
    name or at a slash, before a test segment; or before [.spec.] or
    [.test.]. *)
Lemma matcher_tests_re (prev : option ascii) (t : string) :
  matched (matcher tests_re (mkState prev t []) Some)
  = (match prev with None => test_segment t | Some _ => false end)
    || (match t with
        | String a s => Ascii.eqb a "/" && test_segment s
        | EmptyString => false
        end)
    || prefix_ci ".spec." t || prefix_ci ".test." t.
Proof.
  assert (Hseg : forall x, matched (matcher (Seq (Group 2 (alternatives test_words)) WordBoundary) x Some)
                           = test_segment (rest x)).
  { intros x.
    change (matched (matcher (Group 2 (alternatives test_words)) x
                       (fun z => matcher WordBoundary z Some)) = test_segment (rest x)).
    rewrite (matched_group_words _ _ _ _ (fun b r => xorb b (is_word (head r))));
      [|discriminate|].
    - unfold test_segment, test_words. cbn [existsb].
      rewrite (word_then_boundary "test" "t"), (word_then_boundary "tests" "s"),
        (word_then_boundary "__tests__" "_"); reflexivity.
    - intros y. cbn [matcher]. destruct (xorb _ _); reflexivity. }
  unfold tests_re.
  rewrite matcher_Disj, matcher_Seq, matcher_Group, !matcher_Disj.
  rewrite !matched_or_else, !matcher_lit.
  rewrite <- !orb_assoc. f_equal; [|f_equal; [|f_equal]].
  - destruct prev; [reflexivity|].
    exact (Hseg (set_capture 1 (mkState None t []) (mkState None t []))).
  - cbn [matcher]. unfold char_step. cbn [rest].
    destruct t as [|a s]; [reflexivity|].
    rewrite same_char_slash. destruct (Ascii.eqb a "/"); [|reflexivity].
    exact (Hseg (set_capture 1 (mkState prev (String a s) [])
                             (advance (mkState prev (String a s) []) a s))).
  - pose proof (skip_ci_matched ".spec." (mkState prev t [])) as H.
    cbn [rest] in H. rewrite <- H. destruct (skip_ci _ _); reflexivity.
  - pose proof (skip_ci_matched ".test." (mkState prev t [])) as H.
    cbn [rest] in H. rewrite <- H. destruct (skip_ci _ _); reflexivity.
Qed.

Lemma split_cons (a : ascii) (s : string) :
  JS.split "/" (String a s)
  = if Ascii.eqb a "/" then EmptyString :: JS.split "/" s
    else String a (hd EmptyString (JS.split "/" s)) :: tl (JS.split "/" s).
Proof.
  simpl. destruct (Ascii.eqb a "/"); [reflexivity|].
  pose proof (split_not_nil "/" s). destruct (JS.split "/" s); [contradiction|reflexivity].
Qed.

Lemma split_hd_tl (s : string) :
  JS.split "/" s = hd EmptyString (JS.split "/" s) :: tl (JS.split "/" s).
Proof.
  pose proof (split_not_nil "/" s). destruct (JS.split "/" s); [contradiction|reflexivity].
Qed.

(** Whether a word ends at a boundary is decided inside the first segment. *)
Lemma word_in_first_segment (w s : string) :
  slash_free w = true ->
  match strip_ci w s with Some t => negb (is_word (head t)) | None => false end
  = match strip_ci w (hd EmptyString (JS.split "/" s)) with
    | Some t => negb (is_word (head t))
    | None => false
    end.
Proof.
  unfold slash_free. revert s. induction w as [|ch w IH]; intros s Hw.
  - destruct s as [|a s]; [reflexivity|]. rewrite split_cons.
    destruct (Ascii.eqb_spec a "/") as [->|]; reflexivity.
  - simpl in Hw. apply andb_true_iff in Hw as [Hch Hw].
    destruct s as [|a s]; [reflexivity|]. rewrite split_cons.
    destruct (Ascii.eqb_spec a "/") as [->|]; simpl.
    + destruct (same_char "/" ch); [discriminate|reflexivity].
    + destruct (same_char a ch); [|reflexivity]. now apply IH.
Qed.

Lemma test_segment_first (s : string) :
  test_segment s = test_segment (hd EmptyString (JS.split "/" s)).
Proof.
  unfold test_segment, test_words. cbn [existsb].
  rewrite (word_in_first_segment "test"), (word_in_first_segment "tests"),
    (word_in_first_segment "__tests__"); reflexivity.
Qed.

Lemma search_tests (prev : option ascii) (s : string) :
  search (fun p t => matched (matcher tests_re (mkState p t []) Some)) prev s
  = (match prev with None => test_segment s | Some _ => false end)
    || existsb test_segment (tl (JS.split "/" s))
    || occurs_ci ".spec." s || occurs_ci ".test." s.
Proof.
  revert prev. induction s as [|a s IH]; intros prev.
  - cbn [search]. rewrite matcher_tests_re. simpl.
    now rewrite !orb_false_r.
  - cbn [search]. rewrite IH, matcher_tests_re, split_cons.
    cbn [occurs_ci].
    destruct (Ascii.eqb a "/").
    + cbn [tl]. rewrite (split_hd_tl s) at 2. cbn [existsb].
      rewrite <- test_segment_first.
      destruct (match prev with None => _ | Some _ => _ end), (test_segment s),
        (existsb test_segment (tl (JS.split "/" s))),
        (prefix_ci ".spec." (String a s)), (prefix_ci ".test." (String a s)),
        (occurs_ci ".spec." s), (occurs_ci ".test." s); reflexivity.
    + cbn [tl].
      destruct (match prev with None => _ | Some _ => _ end),
        (existsb test_segment (tl (JS.split "/" s))),
        (prefix_ci ".spec." (String a s)), (prefix_ci ".test." (String a s)),
        (occurs_ci ".spec." s), (occurs_ci ".test." s); reflexivity.
Qed.

Lemma test_tests_re (name : string) : test tests_re name = test_indicator name.
Proof.
  rewrite test_search, search_tests. unfold test_indicator.
  rewrite (split_hd_tl name) at 2. cbn [existsb].
  now rewrite <- test_segment_first.
Qed.

(* ===================================================================== *)
(** ** The shape of [analyze] *)
(* ===================================================================== *)

Lemma fold_map_step (files : list FileRecord) (adds dels : Z) (stats : list FileStat) :
  fold_left map_step files (adds, dels, stats)
  = (adds + total_additions files, dels + total_deletions files,
     (stats ++ List.map file_stat files)%list).
Proof.
  revert adds dels stats. induction files as [|f files IH]; intros adds dels stats.
  - simpl. now rewrite !Z.add_0_r, app_nil_r.
  - cbn [fold_left map_step]. rewrite IH, !or_zero_field.
    unfold total_additions, total_deletions. cbn [List.map sum_Z fold_right].
    rewrite <- app_assoc. cbn [app]. unfold sum_Z.
    now rewrite !Z.add_assoc.
Qed.

Lemma fold_dir_step_throw (stats : list FileStat) (e : string) :
  fold_left dir_step stats (Throw e) = Throw e.
Proof. induction stats; simpl; auto. Qed.

Lemma fold_dir_step_ok (files : list FileRecord) (m : JS.Map) :
  Forall has_filename files ->
  fold_left dir_step (List.map file_stat files) (Ok m)
  = Ok (fold_left add_change (dir_changes files) m).
Proof.
  intros H. revert m. induction H as [|f files Hf _ IH]; intros m; [reflexivity|].
  cbn [List.map fold_left dir_changes]. unfold has_filename in Hf.
  unfold dir_step at 2. cbn [file_stat stat_filename stat_changes].
  destruct (filename f) as [name|] eqn:E; [|congruence].
  rewrite (or_zero_field (changes f)). apply IH.
Qed.

Lemma fold_dir_step_missing (files : list FileRecord) (m : JS.Map) :
  ~ Forall has_filename files ->
  fold_left dir_step (List.map file_stat files) (Ok m) = Throw split_of_undefined.
Proof.
  revert m. induction files as [|f files IH]; intros m H.
  - exfalso. apply H. constructor.
  - cbn [List.map fold_left]. unfold dir_step at 2. cbn [file_stat stat_filename].
    destruct (filename f) as [name|] eqn:E.
    + apply IH. intros Hall. apply H. constructor; [|assumption].
      unfold has_filename. congruence.
    + apply fold_dir_step_throw.
Qed.

Lemma names_of_stats (files : list FileRecord) :
  List.map (fun f => JS.join_item (stat_filename f)) (List.map file_stat files)
  = names_of files.
Proof. unfold names_of. rewrite map_map. reflexivity. Qed.

Lemma existsb_stats (p : string -> bool) (files : list FileRecord) :
  Forall has_filename files ->
  existsb (fun f => p (JS.to_string (stat_filename f))) (List.map file_stat files)
  = existsb p (names_of files).
Proof.
  intros H. induction H as [|f files Hf _ IH]; [reflexivity|].
  cbn [List.map existsb names_of]. unfold names_of in IH. rewrite IH.
  unfold has_filename in Hf. cbn [file_stat stat_filename].
  destruct (filename f); [reflexivity|congruence].
Qed.

Lemma pattern_step_flag (joined : string) (st : Z * list string) (p : Pattern) :
  pattern_step joined st p = flag (test (re p) joined) (pts p) (reason p) st.
Proof. destruct st. reflexivity. Qed.

(** On an input whose records all have a name, [analyze] returns the
    report described by [report_of]. *)
Lemma analyze_ok (files : list FileRecord) :
  Forall has_filename files -> analyze files = Ok (report_of files).
Proof.
  intros H. unfold analyze.
  rewrite fold_map_step. cbn [app]. rewrite !Z.add_0_l.
  rewrite fold_dir_step_ok by assumption.
  rewrite names_of_stats, !existsb_stats by assumption.
  unfold patterns. cbn [fold_left]. rewrite !pattern_step_flag. cbn [re pts reason].
  unfold auth_re, db_re, infra_re, lock_re.
  rewrite !test_words_joined by (discriminate || reflexivity).
  rewrite (existsb_pointwise (test code_re) has_code_extension) by apply test_code_re.
  rewrite (existsb_pointwise (test tests_re) test_indicator) by apply test_tests_re.
  unfold report_of, score_of, reasons_of, triggers, JS.slice.
  unfold auth_re, db_re, infra_re, lock_re. cbn [skipn Nat.sub].
  destruct (25 <=? _), (800 <=? _),
    (existsb (test (Group 1 (alternatives auth_words))) _),
    (existsb (test (Group 1 (alternatives db_words))) _),
    (existsb (test (Group 1 (alternatives infra_words))) _),
    (existsb (test (Group 1 (alternatives lock_words))) _),
    (existsb has_code_extension _ && negb (existsb test_indicator _));
    reflexivity.
Qed.

Lemma analyze_missing (files : list FileRecord) :
  ~ Forall has_filename files -> analyze files = Throw split_of_undefined.
Proof.
  intros H. unfold analyze.
  rewrite fold_map_step. cbn [app].
  now rewrite fold_dir_step_missing.
Qed.

(* ===================================================================== *)
(** ** The sort *)
(* ===================================================================== *)

Lemma StronglySorted_prefix {A : Type} (R : A -> A -> Prop) (l1 l2 : list A) :
  StronglySorted R (l1 ++ l2) -> StronglySorted R l1.
Proof.
  induction l1 as [|x l1 IH]; intros H; [constructor|].
  cbn [app] in H. apply StronglySorted_inv in H as [Hs Hx].
  constructor; [now apply IH|]. now apply Forall_app in Hx as [Hx _].
Qed.

Lemma StronglySorted_map {A B : Type} (f : A -> B) (R : B -> B -> Prop) (l : list A) :
  StronglySorted (fun a b => R (f a) (f b)) l -> StronglySorted R (List.map f l).
Proof.
  induction 1 as [|x l _ IH Hx]; [constructor|].
  cbn [List.map]. constructor; [assumption|].
  rewrite Forall_map. exact Hx.
Qed.

Section StableSort.

Context {A : Type}.
Variable key : A -> Z.
Variable cmp : A -> A -> Z.
Hypothesis cmp_key : forall a b, cmp a b = key b - key a.

Lemma sort_insert_perm (x : A) (l : list A) :
  Permutation (x :: l) (JS.sort_insert cmp x l).
Proof.
  induction l as [|y l IH]; simpl; [reflexivity|].
  destruct (cmp x y <=? 0); [reflexivity|].
  rewrite perm_swap. now apply perm_skip.
Qed.

Lemma sort_perm (l : list A) : Permutation l (JS.sort cmp l).
Proof.
  induction l as [|x l IH]; simpl; [reflexivity|].
  rewrite <- sort_insert_perm. now apply perm_skip.
Qed.

Lemma sort_insert_sorted (x : A) (l : list A) :
  StronglySorted (fun a b => key b <= key a) l ->
  StronglySorted (fun a b => key b <= key a) (JS.sort_insert cmp x l).
Proof using cmp_key.
  induction 1 as [|y l Hs IH Hy]; simpl.
  - constructor; constructor.
  - rewrite cmp_key. destruct (Z.leb_spec (key y - key x) 0) as [Hle|Hgt].
    + constructor; [now constructor|].
      constructor; [lia|]. eapply Forall_impl; [|exact Hy].
      cbv beta. intros z Hz. lia.
    + constructor; [assumption|].
      eapply Permutation_Forall; [apply sort_insert_perm|].
      constructor; [lia|assumption].
Qed.

Lemma sort_sorted (l : list A) :
  StronglySorted (fun a b => key b <= key a) (JS.sort cmp l).
Proof using cmp_key.
  induction l as [|x l IH]; simpl; [constructor|]. now apply sort_insert_sorted.
Qed.

Lemma sort_insert_filter (v : Z) (x : A) (l : list A) :
  filter (fun a => key a =? v) (JS.sort_insert cmp x l)
  = filter (fun a => key a =? v) (x :: l).
Proof using cmp_key.
  induction l as [|y l IH]; [reflexivity|].
  cbn [JS.sort_insert]. rewrite cmp_key.
  destruct (Z.leb_spec (key y - key x) 0) as [Hle|Hgt]; [reflexivity|].
  cbn [filter] in IH |- *. rewrite IH.
  destruct (Z.eqb_spec (key x) v), (Z.eqb_spec (key y) v); try reflexivity. lia.
Qed.

Lemma sort_filter (v : Z) (l : list A) :
  filter (fun a => key a =? v) (JS.sort cmp l) = filter (fun a => key a =? v) l.
Proof using cmp_key.
  induction l as [|x l IH]; [reflexivity|].
  cbn [JS.sort]. rewrite sort_insert_filter. cbn [filter]. now rewrite IH.
Qed.

(** The sort is the stable sort by decreasing key. *)
Lemma sort_stable (l : list A) : stable_sorted_desc key l (JS.sort cmp l).
Proof using cmp_key.
  split; [apply sort_perm|]. split; [apply sort_sorted|].
  intros v. apply sort_filter.
Qed.

(** The first eight of the sorted list, and the rest. *)
Lemma top_eight (l : list A) :
  let top := JS.slice 0 8 (JS.sort cmp l) in
  (List.length top <= 8)%nat
  /\ exists others,
       stable_sorted_desc key l (top ++ others)
       /\ ((List.length top < 8)%nat -> others = []).
Proof using cmp_key.
  unfold JS.slice. cbn [skipn Nat.sub]. cbv zeta. split.
  - apply firstn_le_length.
  - exists (skipn 8 (JS.sort cmp l)). split.
    + rewrite firstn_skipn. apply sort_stable.
    + intros Hlt. rewrite length_firstn in Hlt.
      apply skipn_all2. lia.
Qed.

End StableSort.

(* ===================================================================== *)
(** ** The map of directories *)
(* ===================================================================== *)

Lemma first_seen_snoc (l : list string) (d : string) :
  first_seen (l ++ [d])
  = if existsb (String.eqb d) l then first_seen l else (first_seen l ++ [d])%list.
Proof.
  induction l as [|x l IH]; [reflexivity|].
  cbn [app first_seen existsb]. rewrite IH.
  destruct (String.eqb_spec d x) as [->|Hdx]; cbn [orb].
  - destruct (existsb (String.eqb x) l); [reflexivity|].
    rewrite filter_app. cbn [filter]. rewrite String.eqb_refl. cbn [negb].
    now rewrite app_nil_r.
  - destruct (existsb (String.eqb d) l); [reflexivity|].
    rewrite filter_app. cbn [filter].
    destruct (String.eqb_spec d x); [contradiction|reflexivity].
Qed.

Lemma first_seen_In (l : list string) (d : string) : In d (first_seen l) <-> In d l.
Proof.
  induction l as [|x l IH]; [reflexivity|].
  cbn [first_seen In]. rewrite filter_In, IH.
  destruct (String.eqb_spec d x) as [->|Hdx]; [tauto|].
  split; [tauto|]. intros [H|H]; [congruence|]. right. split; [assumption|reflexivity].
Qed.

Lemma first_seen_NoDup (l : list string) : NoDup (first_seen l).
Proof.
  induction l as [|x l IH]; [constructor|].
  cbn [first_seen]. constructor.
  - rewrite filter_In. intros [_ H]. now rewrite String.eqb_refl in H.
  - now apply NoDup_filter.
Qed.

Lemma existsb_eqb_In (d : string) (l : list string) :
  existsb (String.eqb d) l = true <-> In d l.
Proof.
  rewrite existsb_exists. split.
  - intros [x [Hx E]]. apply String.eqb_eq in E. now subst.
  - intros H. exists d. split; [assumption|apply String.eqb_refl].
Qed.

Section KeyedList.

Variable g : string -> Z.

Lemma map_get_keyed (ks : list string) (d : string) :
  JS.map_get (List.map (fun k => (k, g k)) ks) d
  = if existsb (String.eqb d) ks then Some (g d) else None.
Proof.
  induction ks as [|k ks IH]; [reflexivity|].
  cbn [List.map JS.map_get existsb]. rewrite (String.eqb_sym d k).
  destruct (String.eqb_spec k d) as [->|]; [reflexivity|exact IH].
Qed.

Lemma map_set_keyed_absent (ks : list string) (d : string) (v : Z) :
  ~ In d ks ->
  JS.map_set (List.map (fun k => (k, g k)) ks) d v
  = (List.map (fun k => (k, g k)) ks ++ [(d, v)])%list.
Proof.
  induction ks as [|k ks IH]; intros H; [reflexivity|].
  cbn [List.map JS.map_set app].
  destruct (String.eqb_spec k d) as [->|].
  - exfalso. apply H. now left.
  - rewrite IH; [reflexivity|]. intros Hd. apply H. now right.
Qed.

Lemma map_set_keyed_present (ks : list string) (d : string) (v : Z) :
  NoDup ks -> In d ks ->
  JS.map_set (List.map (fun k => (k, g k)) ks) d v
  = List.map (fun k => (k, if String.eqb k d then v else g k)) ks.
Proof.
  induction 1 as [|k ks Hk Hnd IH]; intros Hd; [contradiction|].
  cbn [List.map JS.map_set].
  destruct (String.eqb_spec k d) as [->|Hkd].
  - f_equal. apply map_ext_in. intros k Hin.
    destruct (String.eqb_spec k d); [congruence|reflexivity].
  - f_equal. apply IH. destruct Hd; [congruence|assumption].
Qed.

End KeyedList.

Lemma total_of_snoc (k d : string) (c : Z) (l : list (string * Z)) :
  total_of k (l ++ [(d, c)]) = total_of k l + (if String.eqb d k then c else 0).
Proof.
  unfold total_of. rewrite filter_app, map_app. cbn [filter fst].
  induction (List.map snd (filter (fun e => String.eqb (fst e) k) l)) as [|z zs IH].
  - destruct (String.eqb d k); simpl; lia.
  - cbn [app sum_Z fold_right] in IH |- *. unfold sum_Z in IH. rewrite IH. lia.
Qed.

Lemma total_of_absent (d : string) (l : list (string * Z)) :
  ~ In d (List.map fst l) -> total_of d l = 0.
Proof.
  unfold total_of. induction l as [|[k c] l IH]; intros H; [reflexivity|].
  cbn [filter fst]. destruct (String.eqb_spec k d) as [->|].
  - exfalso. apply H. now left.
  - apply IH. intros Hd. apply H. now right.
Qed.

(** The loop that fills [dirMap] leaves the directories in the order in
    which they were first met, each with the sum of its changes. *)
Lemma fold_add_change (l : list (string * Z)) :
  fold_left add_change l [] = dir_totals l.
Proof.
  induction l as [|[d c] l IH] using rev_ind; [reflexivity|].
  rewrite fold_left_app. cbn [fold_left]. rewrite IH. clear IH.
  unfold add_change, dir_totals. cbn [fst snd].
  rewrite map_app. cbn [List.map fst]. rewrite first_seen_snoc.
  rewrite (map_get_keyed (fun k => total_of k l)).
  destruct (existsb (String.eqb d) (first_seen (List.map fst l))) eqn:E.
  - assert (Hin : In d (first_seen (List.map fst l))) by now apply existsb_eqb_In.
    assert (E' : existsb (String.eqb d) (List.map fst l) = true).
    { apply existsb_eqb_In. now apply first_seen_In. }
    rewrite E'. rewrite or_zero_field. cbn [field_or_zero].
    rewrite (map_set_keyed_present (fun k => total_of k l))
      by (apply first_seen_NoDup || assumption).
    apply map_ext. intros k. rewrite total_of_snoc, (String.eqb_sym d k).
    destruct (String.eqb k d) eqn:Ek; [|now rewrite Z.add_0_r].
    apply String.eqb_eq in Ek. now subst.
  - assert (Hnin : ~ In d (first_seen (List.map fst l))).
    { intros H. apply existsb_eqb_In in H. congruence. }
    assert (E' : existsb (String.eqb d) (List.map fst l) = false).
    { destruct (existsb (String.eqb d) (List.map fst l)) eqn:E2; [|reflexivity].
      exfalso. apply Hnin. apply first_seen_In. now apply existsb_eqb_In. }
    rewrite E'. cbn [JS.or_zero]. rewrite Z.add_0_l.
    rewrite (map_set_keyed_absent (fun k => total_of k l)) by assumption.
    rewrite map_app. cbn [List.map]. f_equal.
    + apply map_ext_in. intros k Hk. rewrite total_of_snoc.
      destruct (String.eqb_spec d k) as [->|]; [contradiction|now rewrite Z.add_0_r].
    + rewrite total_of_snoc, String.eqb_refl, total_of_absent; [reflexivity|].
      intros H. apply Hnin. now apply first_seen_In.
Qed.

(* ===================================================================== *)
(** ** When [analyze] returns *)
(* ===================================================================== *)

Lemma has_filename_dec (f : FileRecord) : {has_filename f} + {~ has_filename f}.
Proof.
  unfold has_filename. destruct (filename f); [left; discriminate|right; auto].
Qed.

Lemma analyze_inv (files : list FileRecord) (rep : Report) :
  analyze files = Ok rep -> Forall has_filename files /\ rep = report_of files.
Proof.
  intros H. destruct (Forall_dec has_filename has_filename_dec files) as [Hall|Hnot].
  - split; [assumption|]. rewrite analyze_ok in H by assumption. congruence.
  - rewrite analyze_missing in H by assumption. discriminate.
Qed.

(** C5, as amended. [analyze] returns a report on every input whose
    records all have a filename, whichever of their other fields are
    missing. *)
Theorem analyze_returns (files : list FileRecord) :
  Forall has_filename files -> exists rep, analyze files = Ok rep.
Proof.
  intros H. exists (report_of files). now apply analyze_ok.
Qed.

Lemma analyze_returns_witness :
  Forall has_filename bare_records /\ exists rep, analyze bare_records = Ok rep.
Proof.
  assert (H : Forall has_filename bare_records)
    by (repeat constructor; discriminate).
  split; [exact H|]. exact (analyze_returns bare_records H).
Defined.

(** C5, the claim as stated fails: on a record without filename the loop
    over the directories reads [split] off [undefined] and [analyze]
    throws. *)
Lemma analyze_throws_without_filename :
  analyze nameless_record = Throw split_of_undefined
  /\ ~ exists rep, analyze nameless_record = Ok rep.
Proof.
  split; [reflexivity|]. intros [rep H]. discriminate H.
Qed.

(** Whenever [analyze] returns, the metrics are the counts and sums of
    the input. *)
Lemma metrics_of_report (files : list FileRecord) (rep : Report) :
  analyze files = Ok rep ->
  metrics rep
  = mkMetrics (Z.of_nat (List.length files)) (total_additions files)
              (total_deletions files)
              (total_additions files + total_deletions files).
Proof. intros H. apply analyze_inv in H as [_ ->]. reflexivity. Qed.

(** C1. On every input whose records have their filename, [analyze]
    returns metrics with: [totalFiles] the number of records, [additions]
    and [deletions] the sums of the fields of these names over the records,
    a missing field counting as 0, and [churn] the sum of the two. *)
Theorem analyze_metrics (files : list FileRecord) :
  Forall has_filename files ->
  exists rep,
    analyze files = Ok rep
    /\ totalFiles (metrics rep) = Z.of_nat (List.length files)
    /\ m_additions (metrics rep)
       = sum_Z (List.map (fun f => field_or_zero (additions f)) files)
    /\ m_deletions (metrics rep)
       = sum_Z (List.map (fun f => field_or_zero (deletions f)) files)
    /\ churn (metrics rep) = m_additions (metrics rep) + m_deletions (metrics rep).
Proof.
  intros H. exists (report_of files). split; [now apply analyze_ok|].
  repeat split; reflexivity.
Qed.

(** C2. The level of a report is "high" exactly when its score is at least
    6, "medium" exactly when the score is at least 3 and below 6, and "low"
    exactly when it is below 3; so the scores 2, 3, 5 and 6 give low, medium,
    medium and high. *)
Theorem level_thresholds (files : list FileRecord) (rep : Report) :
  analyze files = Ok rep ->
  let s := score (risk rep) in
  let l := level (risk rep) in
  (l = "high" <-> 6 <= s)
  /\ (l = "medium" <-> 3 <= s < 6)
  /\ (l = "low" <-> s < 3)
  /\ (s = 2 -> l = "low") /\ (s = 3 -> l = "medium")
  /\ (s = 5 -> l = "medium") /\ (s = 6 -> l = "high").
Proof.
  intros H. apply analyze_inv in H as [_ ->]. cbn [report_of risk score level].
  generalize (score_of files). intros s. cbv zeta. unfold level_of.
  destruct (Z.leb_spec 6 s); [|destruct (Z.leb_spec 3 s)];
    repeat split; intros; try discriminate; try lia.
Qed.

Lemma analyze_metrics_witness :
  Forall has_filename bare_records
  /\ exists rep,
       analyze bare_records = Ok rep
       /\ totalFiles (metrics rep) = Z.of_nat (List.length bare_records)
       /\ m_additions (metrics rep)
          = sum_Z (List.map (fun f => field_or_zero (additions f)) bare_records)
       /\ m_deletions (metrics rep)
          = sum_Z (List.map (fun f => field_or_zero (deletions f)) bare_records)
       /\ churn (metrics rep) = m_additions (metrics rep) + m_deletions (metrics rep).
Proof.
  assert (H : Forall has_filename bare_records)
    by (repeat constructor; discriminate).
  split; [exact H|]. exact (analyze_metrics bare_records H).
Defined.

Lemma level_thresholds_witness :
  exists rep,
    analyze login_change = Ok rep
    /\ score (risk rep) = 5 /\ level (risk rep) = "medium".
Proof.
  exists (report_of login_change).
  assert (H : analyze login_change = Ok (report_of login_change)) by reflexivity.
  split; [exact H|]. split; [reflexivity|].
  exact (proj1 (proj2 (proj2 (proj2 (proj2 (proj2
           (level_thresholds login_change _ H)))))) eq_refl).
Defined.

(** The four boundary scores are scores of inputs. *)
Example level_at_boundaries :
  List.map (fun files => match analyze files with
                         | Ok rep => Some (score (risk rep), level (risk rep))
                         | Throw _ => None
                         end)
           [thirty_files; auth_doc_change; login_change; auth_db_change]
  = [Some (2, "low"); Some (3, "medium"); Some (5, "medium"); Some (6, "high")].
Proof. vm_compute. reflexivity. Qed.

(** The key of a filename without a slash is the
    filename itself; the sentinel is the key of the empty filename only. *)
Lemma dir_of_without_slash (name : string) :
  JS.split "/" name = [name] -> dir_of name = JS.or_string name "(root)".
Proof.
  intros H. unfold dir_of, JS.slice. rewrite H. reflexivity.
Qed.

(** C3, at the failing input: the hotspot of a file at the root of the
    repository has the filename for its directory, not "(root)". *)
Theorem root_file_hotspot :
  JS.split "/" "README.md" = ["README.md"]
  /\ dir_of "README.md" = "README.md"
  /\ exists rep,
       analyze root_change = Ok rep
       /\ hotspots rep = [mkHotspot "README.md" 5].
Proof.
  split; [reflexivity|]. split; [reflexivity|].
  eexists. split; reflexivity.
Qed.

(* ===================================================================== *)
(** ** The score and the reasons *)
(* ===================================================================== *)

Section Selection.

Context {A : Type}.

Lemma select_In (mask : list bool) (l : list A) (x : A) :
  In x (select mask l) -> In x l.
Proof.
  revert mask. induction l as [|y l IH]; intros [|b mask]; simpl; try tauto.
  destruct b; simpl; intros H.
  - destruct H; [now left|right; eauto].
  - right. eauto.
Qed.

Lemma select_NoDup (mask : list bool) (l : list A) :
  NoDup l -> NoDup (select mask l).
Proof.
  intros H. revert mask. induction H as [|y l Hy _ IH]; intros [|b mask];
    simpl; try constructor.
  destruct b; [|apply IH]. constructor; [|apply IH].
  intros Hin. apply Hy. eapply select_In, Hin.
Qed.

End Selection.

Lemma select_subsequence (mask : list bool) (l : list string) :
  NoDup l -> is_subsequence (select mask l) l = true.
Proof.
  intros H. revert mask. induction H as [|y l Hy _ IH]; intros [|b mask];
    try reflexivity.
  cbn [select]. destruct b.
  - cbn [is_subsequence]. rewrite String.eqb_refl. apply IH.
  - specialize (IH mask). destruct (select mask l) as [|x s] eqn:E; [reflexivity|].
    cbn [is_subsequence]. destruct (String.eqb_spec x y) as [->|]; [|exact IH].
    exfalso. apply Hy. apply (select_In mask). rewrite E. now left.
Qed.

Lemma select_points (mask : list bool) (table : list (string * Z)) :
  NoDup (List.map fst table) ->
  sum_Z (List.map (points_of table) (select mask (List.map fst table)))
  = sum_Z (select mask (List.map snd table)).
Proof.
  revert mask. induction table as [|[r p] table IH]; intros mask Hnd.
  - destruct mask; reflexivity.
  - cbn [List.map fst snd] in Hnd |- *. inversion Hnd as [|? ? Hr Hnd']; subst.
    assert (Hrest : forall m,
      List.map (points_of ((r, p) :: table)) (select m (List.map fst table))
      = List.map (points_of table) (select m (List.map fst table))).
    { intros m. apply map_ext_in. intros x Hx. cbn [points_of].
      destruct (String.eqb_spec r x) as [->|]; [|reflexivity].
      exfalso. apply Hr. eapply select_In, Hx. }
    destruct mask as [|b mask]; [reflexivity|]. cbn [select]. destruct b.
    + cbn [List.map sum_Z fold_right points_of]. rewrite String.eqb_refl.
      f_equal. fold (sum_Z (List.map (points_of ((r, p) :: table))
                                     (select mask (List.map fst table)))).
      rewrite Hrest. now apply IH.
    + rewrite Hrest. now apply IH.
Qed.

Lemma select_sum_mono (m m' : list bool) (points : list Z) :
  Forall2 (fun b b' => b = true -> b' = true) m m' ->
  Forall (fun p => 0 <= p) points ->
  0 <= sum_Z (select m points) <= sum_Z (select m' points).
Proof.
  intros Hm. revert points. induction Hm as [|b b' m m' Hb _ IH]; intros points Hp.
  - simpl. lia.
  - destruct Hp as [|p points Hp0 Hp]; [simpl; lia|].
    specialize (IH points Hp). cbn [select].
    destruct b, b'; cbn [sum_Z fold_right]; fold (sum_Z (select m points));
      fold (sum_Z (select m' points));
      try (specialize (Hb eq_refl); discriminate); lia.
Qed.

Lemma select_sum_bound (m : list bool) (points : list Z) :
  Forall (fun p => 0 <= p) points ->
  0 <= sum_Z (select m points) <= sum_Z points.
Proof.
  intros H. revert m. induction H as [|p points Hp _ IH]; intros m.
  - destruct m as [|[] ?]; simpl; lia.
  - destruct m as [|b m]; cbn [select sum_Z fold_right].
    + fold (sum_Z points). specialize (IH []). simpl in IH.
      destruct points; simpl in *; lia.
    + specialize (IH m). destruct b; cbn [sum_Z fold_right];
        fold (sum_Z (select m points)); fold (sum_Z points); lia.
Qed.

Lemma select_member (l : list string) (m : list bool) (i : nat) :
  NoDup l -> (i < List.length l)%nat ->
  In (nth i l EmptyString) (select m l) <-> nth i m false = true.
Proof.
  intros Hnd. revert m i. induction Hnd as [|y l Hy Hnd IH]; intros m i Hi.
  - simpl in Hi. lia.
  - destruct m as [|b m].
    + simpl. destruct i; split; (contradiction || discriminate).
    + destruct i as [|i]; cbn [nth select].
      * destruct b; [split; [reflexivity|now left]|].
        split; [|discriminate]. intros H. exfalso. apply Hy. eapply select_In, H.
      * cbn [List.length] in Hi. assert (Hi' : (i < List.length l)%nat) by lia.
        rewrite <- (IH m i Hi'). destruct b; [|reflexivity].
        cbn [In]. split; [|now right]. intros [E|H]; [|assumption].
        exfalso. apply Hy. rewrite E. now apply nth_In.
Qed.

Lemma canonical_reasons_NoDup : NoDup (List.map fst canonical_reasons).
Proof.
  repeat constructor; simpl; intuition discriminate.
Qed.

Lemma canonical_points_nonneg : Forall (fun p => 0 <= p) (List.map snd canonical_reasons).
Proof. repeat constructor; simpl; lia. Qed.

(** C9, as amended. The reasons of a report are a selection, in order and
    without repetition, of the seven reasons of the scoring; the score is
    the sum of the points of the reasons that are there, so it is determined
    by the list of reasons and lies between 0 and 16, the sum of the seven
    point values. *)
Theorem reasons_determine_score (files : list FileRecord) (rep : Report) :
  analyze files = Ok rep ->
  (exists mask,
      List.length mask = 7%nat
      /\ reasons (risk rep) = select mask (List.map fst canonical_reasons)
      /\ score (risk rep) = sum_Z (select mask (List.map snd canonical_reasons)))
  /\ is_subsequence (reasons (risk rep)) (List.map fst canonical_reasons) = true
  /\ NoDup (reasons (risk rep))
  /\ score (risk rep) = sum_Z (List.map (points_of canonical_reasons) (reasons (risk rep)))
  /\ 0 <= score (risk rep) <= 16.
Proof.
  intros H. apply analyze_inv in H as [_ ->].
  cbn [report_of risk score reasons]. unfold score_of, reasons_of.
  split; [|split; [|split; [|split]]].
  - exists (triggers files). repeat split; reflexivity.
  - apply select_subsequence, canonical_reasons_NoDup.
  - apply select_NoDup, canonical_reasons_NoDup.
  - symmetry. apply select_points, canonical_reasons_NoDup.
  - change 16 with (sum_Z (List.map snd canonical_reasons)).
    apply select_sum_bound, canonical_points_nonneg.
Qed.

Lemma reasons_determine_score_witness :
  exists rep,
    analyze login_change = Ok rep
    /\ reasons (risk rep)
       = ["Touches auth/security related code"; "Code changed but tests were not updated"]
    /\ score (risk rep)
       = sum_Z (List.map (points_of canonical_reasons) (reasons (risk rep))).
Proof.
  exists (report_of login_change).
  assert (H : analyze login_change = Ok (report_of login_change)) by reflexivity.
  split; [exact H|]. split; [reflexivity|].
  exact (proj1 (proj2 (proj2 (proj2 (reasons_determine_score login_change _ H))))).
Defined.

(** C9, the claim as stated fails: an input on which the seven conditions
    all hold has the score 16, above the bound 14 of the claim. *)
Lemma score_above_fourteen :
  exists rep,
    analyze every_flag = Ok rep
    /\ List.length (reasons (risk rep)) = 7%nat
    /\ score (risk rep) = 16
    /\ ~ score (risk rep) <= 14.
Proof.
  exists (report_of every_flag). split; [vm_compute; reflexivity|].
  split; [vm_compute; reflexivity|].
  assert (E : score (risk (report_of every_flag)) = 16) by (vm_compute; reflexivity).
  split; [exact E|]. rewrite E. lia.
Qed.

(* ===================================================================== *)
(** ** One more record *)
(* ===================================================================== *)

Lemma names_of_insert (l1 l2 : list FileRecord) (r : FileRecord) :
  names_of (l1 ++ r :: l2)
  = (names_of l1 ++ JS.join_item (filename r) :: names_of l2)%list.
Proof. unfold names_of. now rewrite map_app. Qed.

Lemma existsb_insert {A : Type} (p : A -> bool) (l1 l2 : list A) (x : A) :
  existsb p (l1 ++ x :: l2) = p x || existsb p (l1 ++ l2).
Proof.
  rewrite !existsb_app. cbn [existsb].
  destruct (existsb p l1), (p x); reflexivity.
Qed.

Lemma sum_Z_insert (l1 l2 : list Z) (x : Z) :
  sum_Z (l1 ++ x :: l2) = x + sum_Z (l1 ++ l2).
Proof.
  induction l1 as [|y l1 IH]; [reflexivity|].
  cbn [app sum_Z fold_right]. fold (sum_Z (l1 ++ x :: l2)). fold (sum_Z (l1 ++ l2)).
  rewrite IH. lia.
Qed.

Lemma triggers_insert (l1 l2 : list FileRecord) (r : FileRecord) (name : string) :
  filename r = Some name ->
  0 <= field_or_zero (additions r) + field_or_zero (deletions r) ->
  test tests_re name = false \/ nth 6 (triggers (l1 ++ l2)) false = false ->
  Forall2 (fun b b' => b = true -> b' = true)
          (triggers (l1 ++ l2)) (triggers (l1 ++ r :: l2)).
Proof.
  intros Hname Hnonneg Htest. unfold triggers in *. cbn [nth] in Htest.
  rewrite names_of_insert, Hname. cbn [JS.join_item].
  unfold names_of in *. rewrite !map_app in *. fold (names_of l1) in *.
  fold (names_of l2) in *.
  rewrite !existsb_insert. rewrite <- test_tests_re.
  unfold total_additions, total_deletions. rewrite !map_app. cbn [List.map].
  rewrite !sum_Z_insert, <- !map_app, !length_app. cbn [List.length].
  repeat constructor.
  - rewrite !Z.leb_le. lia.
  - rewrite !Z.leb_le. lia.
  - intros ->. apply orb_true_r.
  - intros ->. apply orb_true_r.
  - intros ->. apply orb_true_r.
  - intros ->. apply orb_true_r.
  - destruct Htest as [-> | ->]; [|discriminate]. cbn [orb].
    rewrite !andb_true_iff. intros [-> ->]. now rewrite orb_true_r.
Qed.

(** C4, as amended. A record that is added anywhere in an input does not
    lower the score, when its additions and deletions, missing ones counting
    as 0, are not negative together, unless its filename matches the pattern
    of the test indicator while the report of the input has the reason of
    the code-without-tests check. *)
Theorem score_monotone (l1 l2 : list FileRecord) (r : FileRecord) (name : string)
        (rep : Report) :
  analyze (l1 ++ l2) = Ok rep ->
  filename r = Some name ->
  0 <= field_or_zero (additions r) + field_or_zero (deletions r) ->
  test tests_re name = false
  \/ ~ In "Code changed but tests were not updated" (reasons (risk rep)) ->
  exists rep',
    analyze (l1 ++ r :: l2) = Ok rep'
    /\ score (risk rep) <= score (risk rep').
Proof.
  intros H Hname Hnonneg Htest. apply analyze_inv in H as [Hall ->].
  assert (Hall' : Forall has_filename (l1 ++ r :: l2)).
  { apply Forall_app in Hall as [H1 H2]. apply Forall_app. split; [assumption|].
    constructor; [|assumption]. unfold has_filename. congruence. }
  exists (report_of (l1 ++ r :: l2)). split; [now apply analyze_ok|].
  cbn [report_of risk score]. unfold score_of.
  apply select_sum_mono; [|apply canonical_points_nonneg].
  apply (triggers_insert l1 l2 r name); try assumption.
  destruct Htest as [Htest|Htest]; [now left|right].
  cbn [report_of risk reasons] in Htest. unfold reasons_of in Htest.
  destruct (nth 6 (triggers (l1 ++ l2)) false) eqn:E; [|reflexivity].
  exfalso. apply Htest.
  apply (select_member _ (triggers (l1 ++ l2)) 6 canonical_reasons_NoDup);
    [cbn; lia|exact E].
Qed.

Lemma score_monotone_witness :
  exists rep',
    analyze (code_change ++ [docs_change]) = Ok rep'
    /\ score (risk (report_of code_change)) <= score (risk rep').
Proof.
  apply (score_monotone code_change [] docs_change "docs/notes.md" (report_of code_change)).
  - reflexivity.
  - reflexivity.
  - vm_compute. discriminate.
  - left. vm_compute. reflexivity.
Defined.

(** C4, the claim as stated fails: a test file added to a change of code
    alone takes the reason of the code-without-tests check away, and the
    score falls from 2 to 0. *)
Lemma score_drops_with_test_file :
  exists rep rep',
    analyze code_change = Ok rep
    /\ analyze (code_change ++ [test_change]) = Ok rep'
    /\ score (risk rep) = 2 /\ score (risk rep') = 0
    /\ ~ score (risk rep) <= score (risk rep').
Proof.
  exists (report_of code_change), (report_of (code_change ++ [test_change])).
  split; [vm_compute; reflexivity|]. split; [vm_compute; reflexivity|].
  assert (E : score (risk (report_of code_change)) = 2) by (vm_compute; reflexivity).
  assert (E' : score (risk (report_of (code_change ++ [test_change]))) = 0)
    by (vm_compute; reflexivity).
  rewrite E, E'. repeat split. lia.
Qed.

Lemma pattern_words_plain :
  forallb plain_word auth_words = true /\ forallb plain_word db_words = true
  /\ forallb plain_word infra_words = true /\ forallb plain_word lock_words = true.
Proof. repeat split; reflexivity. Qed.

(** Each of the four patterns matches the joined names exactly when it
    matches one of the names. *)
Lemma pattern_joined (p : Pattern) (names : list string) :
  In p patterns ->
  test (re p) (JS.join JS.newline names) = existsb (test (re p)) names.
Proof.
  destruct pattern_words_plain as [Ha [Hd [Hi Hl]]].
  intros [<-|[<-|[<-|[<-|[]]]]]; cbn [re];
    apply test_words_joined; (discriminate || assumption).
Qed.

(** C6. For each of the four patterns, with the points and the reason of
    the table: the pattern matches the joined names exactly when it matches
    one of the names, that is when one of its words occurs in a name up to
    the case of letters; its reason is in the report exactly when it
    matches; the reasons of the patterns are in the report in the order of
    the table; and the score is the points of the other three checks plus
    the points of the patterns that match. *)
Theorem pattern_checks (files : list FileRecord) (rep : Report) :
  analyze files = Ok rep ->
  let names := names_of files in
  let hit := fun p => test (re p) (JS.join JS.newline names) in
  List.map (fun p => (pts p, reason p)) patterns
  = [ (3, "Touches auth/security related code");
      (3, "Touches database/migrations/schema");
      (2, "Touches CI/infra config");
      (2, "Touches dependency lockfiles") ]
  /\ (forall name,
        test auth_re name = existsb (fun w => occurs_ci w name) auth_words
        /\ test db_re name = existsb (fun w => occurs_ci w name) db_words
        /\ test infra_re name = existsb (fun w => occurs_ci w name) infra_words
        /\ test lock_re name = existsb (fun w => occurs_ci w name) lock_words)
  /\ (forall p, In p patterns -> hit p = existsb (test (re p)) names)
  /\ (forall p, In p patterns -> (In (reason p) (reasons (risk rep)) <-> hit p = true))
  /\ filter (fun r => existsb (fun p => String.eqb (reason p) r) patterns)
            (reasons (risk rep))
     = flat_map (fun p => if hit p then [reason p] else []) patterns
  /\ score (risk rep)
     = (if 25 <=? totalFiles (metrics rep) then 2 else 0)
       + (if 800 <=? churn (metrics rep) then 2 else 0)
       + sum_Z (List.map (fun p => if hit p then pts p else 0) patterns)
       + (if existsb (test code_re) names && negb (existsb (test tests_re) names)
          then 2 else 0).
Proof.
  intros H. apply analyze_inv in H as [_ ->]. cbv zeta.
  split; [reflexivity|]. split.
  { intros name. repeat split; apply test_words_occurs; discriminate. }
  split; [intros p Hp; now apply pattern_joined|].
  assert (Hhit : forall p, In p patterns ->
            test (re p) (JS.join JS.newline (names_of files))
            = nth (2 + match p with mkPattern _ _ r =>
                         if String.eqb r "Touches auth/security related code" then 0
                         else if String.eqb r "Touches database/migrations/schema" then 1
                         else if String.eqb r "Touches CI/infra config" then 2 else 3
                       end) (triggers files) false).
  { intros p Hp. rewrite pattern_joined by assumption.
    destruct Hp as [<-|[<-|[<-|[<-|[]]]]]; reflexivity. }
  split; [|split].
  - intros p Hp. rewrite Hhit by assumption.
    cbn [report_of risk reasons]. unfold reasons_of.
    rewrite <- (select_member _ _ _ canonical_reasons_NoDup).
    + destruct Hp as [<-|[<-|[<-|[<-|[]]]]]; reflexivity.
    + destruct Hp as [<-|[<-|[<-|[<-|[]]]]]; cbn; lia.
  - unfold patterns at 2. cbn [flat_map]. rewrite !Hhit by (cbn; tauto).
    cbn [report_of risk reasons]. unfold reasons_of, triggers.
    cbn [nth Nat.add String.eqb Ascii.eqb Bool.eqb].
    destruct (25 <=? _), (800 <=? _),
      (existsb (test auth_re) _), (existsb (test db_re) _),
      (existsb (test infra_re) _), (existsb (test lock_re) _),
      (existsb has_code_extension _ && negb (existsb test_indicator _));
      reflexivity.
  - unfold patterns. cbn [List.map]. rewrite !Hhit by (cbn; tauto).
    rewrite (existsb_pointwise (test code_re) has_code_extension) by apply test_code_re.
    rewrite (existsb_pointwise (test tests_re) test_indicator) by apply test_tests_re.
    cbn [report_of risk score metrics totalFiles churn]. unfold score_of, triggers.
    cbn [nth Nat.add String.eqb Ascii.eqb Bool.eqb].
    destruct (25 <=? _), (800 <=? _),
      (existsb (test auth_re) _), (existsb (test db_re) _),
      (existsb (test infra_re) _), (existsb (test lock_re) _),
      (existsb has_code_extension _ && negb (existsb test_indicator _));
      reflexivity.
Qed.

Lemma pattern_checks_witness :
  exists rep,
    analyze login_change = Ok rep
    /\ (In "Touches auth/security related code" (reasons (risk rep))
        <-> test auth_re (JS.join JS.newline (names_of login_change)) = true).
Proof.
  exists (report_of login_change).
  assert (H : analyze login_change = Ok (report_of login_change)) by reflexivity.
  split; [exact H|].
  exact (proj1 (proj2 (proj2 (proj2 (pattern_checks login_change _ H))))
           (mkPattern auth_re 3 "Touches auth/security related code")
           (or_introl eq_refl)).
Defined.

(** C7, as amended. The reason of the code-without-tests check is in the
    report, and its 2 points in the score, exactly when a filename ends, up
    to the case of letters, with a dot and one of the source-code extensions
    and no filename has the test indicator of the code: up to case, a path
    segment that starts with "test", "tests" or "__tests__" followed by the
    end of the segment or by a character that is not a letter, a digit or an
    underscore, or ".spec." or ".test." anywhere in the filename. *)
Theorem code_without_tests (files : list FileRecord) (rep : Report) :
  analyze files = Ok rep ->
  let names := names_of files in
  let untested :=
    existsb has_code_extension names && negb (existsb test_indicator names) in
  (forall name, test code_re name = has_code_extension name
                /\ test tests_re name = test_indicator name)
  /\ (In "Code changed but tests were not updated" (reasons (risk rep))
      <-> untested = true)
  /\ score (risk rep)
     = (if 25 <=? totalFiles (metrics rep) then 2 else 0)
       + (if 800 <=? churn (metrics rep) then 2 else 0)
       + sum_Z (List.map (fun p => if existsb (test (re p)) names then pts p else 0)
                         patterns)
       + (if untested then 2 else 0).
Proof.
  intros H. apply analyze_inv in H as [_ ->]. cbv zeta.
  split; [intros name; split; [apply test_code_re|apply test_tests_re]|].
  split.
  - cbn [report_of risk reasons]. unfold reasons_of.
    exact (select_member _ (triggers files) 6 canonical_reasons_NoDup
                         ltac:(cbn; lia)).
  - cbn [report_of risk score metrics totalFiles churn]. unfold score_of, triggers.
    unfold patterns. cbn [List.map re pts].
    destruct (25 <=? _), (800 <=? _),
      (existsb (test auth_re) _), (existsb (test db_re) _),
      (existsb (test infra_re) _), (existsb (test lock_re) _),
      (existsb has_code_extension _ && negb (existsb test_indicator _));
      reflexivity.
Qed.

Lemma code_without_tests_witness :
  exists rep,
    analyze code_change = Ok rep
    /\ In "Code changed but tests were not updated" (reasons (risk rep)).
Proof.
  exists (report_of code_change).
  assert (H : analyze code_change = Ok (report_of code_change)) by reflexivity.
  split; [exact H|].
  apply (proj1 (proj2 (code_without_tests code_change _ H))). reflexivity.
Defined.

(** C7, the claim as stated fails: a source file in a directory
    [test-helpers] has a code extension, and no segment of its path is equal
    to a test word, nor does its name contain [.spec.] or [.test.]; yet the
    pattern of the code matches [/test] before the hyphen, and the check adds
    neither the reason nor the points. *)
Lemma test_prefix_counts_as_tests :
  exists rep,
    analyze helper_change = Ok rep
    /\ existsb has_code_extension (names_of helper_change) = true
    /\ existsb spec_test_indicator (names_of helper_change) = false
    /\ test tests_re "src/test-helpers/util.ts" = true
    /\ ~ In "Code changed but tests were not updated" (reasons (risk rep))
    /\ score (risk rep) = 0.
Proof.
  exists (report_of helper_change).
  split; [vm_compute; reflexivity|]. split; [vm_compute; reflexivity|].
  split; [vm_compute; reflexivity|]. split; [vm_compute; reflexivity|].
  split; [|vm_compute; reflexivity].
  assert (E : reasons (risk (report_of helper_change)) = []) by (vm_compute; reflexivity).
  rewrite E. intros [].
Qed.

(* ===================================================================== *)
(** ** The two lists of the report *)
(* ===================================================================== *)

Lemma by_changes_key (a b : FileStat) : by_changes a b = stat_changes b - stat_changes a.
Proof. reflexivity. Qed.

Lemma by_churn_key (a b : string * Z) : by_churn a b = snd b - snd a.
Proof. reflexivity. Qed.

(** C8. [biggestFiles] and [hotspots] have at most eight entries and are
    sorted, by decreasing [changes] and by decreasing [churn].
    [biggestFiles] is the start, the whole when it is shorter than eight, of
    the file list sorted by decreasing [changes], files of equal [changes] in
    the order of the input. [hotspots] is the start, in the same sense, of
    the directories sorted by decreasing sum of changes, directories of equal
    sum in the order in which they are first met in the input. *)
Theorem top_lists (files : list FileRecord) (rep : Report) :
  analyze files = Ok rep ->
  (List.length (hotspots rep) <= 8)%nat
  /\ (List.length (biggestFiles rep) <= 8)%nat
  /\ StronglySorted (fun a b => stat_changes b <= stat_changes a) (biggestFiles rep)
  /\ StronglySorted (fun a b => h_churn b <= h_churn a) (hotspots rep)
  /\ (exists others,
        stable_sorted_desc stat_changes (List.map file_stat files)
                           (biggestFiles rep ++ others)
        /\ ((List.length (biggestFiles rep) < 8)%nat -> others = []))
  /\ (exists others,
        stable_sorted_desc snd (dir_totals (dir_changes files))
                           (List.map (fun h => (dir h, h_churn h)) (hotspots rep) ++ others)
        /\ ((List.length (hotspots rep) < 8)%nat -> others = [])).
Proof.
  intros H. apply analyze_inv in H as [_ ->].
  cbn [report_of hotspots biggestFiles]. rewrite fold_add_change.
  destruct (top_eight stat_changes by_changes by_changes_key (List.map file_stat files))
    as [Hlen [others [Hsort Hshort]]].
  destruct (top_eight snd by_churn by_churn_key (dir_totals (dir_changes files)))
    as [Hlen' [others' [Hsort' Hshort']]].
  unfold JS.slice in *. cbn [skipn Nat.sub] in *.
  rewrite length_map, map_map. cbn [dir h_churn].
  rewrite (map_ext _ (fun e => e)) by (intros []; reflexivity). rewrite map_id.
  split; [assumption|]. split; [assumption|].
  split; [|split; [|split]].
  - destruct Hsort as [_ [Hs _]]. now apply StronglySorted_prefix in Hs.
  - destruct Hsort' as [_ [Hs _]]. apply StronglySorted_prefix in Hs.
    apply (StronglySorted_map (fun e => mkHotspot (fst e) (snd e))
                              (fun a b => h_churn b <= h_churn a)).
    exact Hs.
  - exists others. now split.
  - exists others'. now split.
Qed.

Lemma top_lists_witness :
  exists rep,
    analyze many_dirs = Ok rep
    /\ List.map dir (hotspots rep) = ["j/x"; "a/x"; "c/x"; "d/x"; "e/x"; "f/x"; "g/x"; "h/x"]
    /\ (List.length (hotspots rep) <= 8)%nat.
Proof.
  exists (report_of many_dirs).
  assert (H : analyze many_dirs = Ok (report_of many_dirs)) by reflexivity.
  split; [exact H|]. split; [reflexivity|].
  exact (proj1 (top_lists many_dirs _ H)).
Defined.

(* ===================================================================== *)
(** ** The route without a token *)
(* ===================================================================== *)

Lemma Ret_inj {E : Type -> Type} {R : Type} (r1 r2 : R) :
  (Ret r1 : itree E R) = Ret r2 -> r1 = r2.
Proof.
  intros H. apply (f_equal observe) in H. cbn in H. now inversion H.
Qed.

(** C10, as amended. When the body of the request is read, its [prUrl] is
    the URL of a pull request and no token is configured, [POST] answers at
    once, without a request to the GitHub API, with the status 500 and the
    error "Missing GITHUB_TOKEN in .env.local". *)
Theorem missing_token (env : Env) (req : Request) (b : Body) (parsed : PullRef) :
  json req = Ok b ->
  parsePrUrl (prUrl b) = Some parsed ->
  GITHUB_TOKEN env = None ->
  POST env req = Ret (mkResponse (ErrorBody "Missing GITHUB_TOKEN in .env.local") 500).
Proof.
  intros Hjson Hurl Htoken. unfold POST. rewrite Hjson, Hurl, Htoken. reflexivity.
Qed.

Lemma missing_token_witness :
  POST (mkEnv None) good_request
  = Ret (mkResponse (ErrorBody "Missing GITHUB_TOKEN in .env.local") 500).
Proof.
  apply (missing_token (mkEnv None) good_request
                       (mkBody (Some "https://github.com/vercel/next.js/pull/1"))
                       (mkPullRef "vercel" "next.js" 1)).
  - reflexivity.
  - vm_compute. reflexivity.
  - reflexivity.
Defined.

(** C10, the claim as stated fails: without a token the answer to a
    request for a pull request has another message than the one of the
    claim, and the answer to a request with another URL is the status 400 of
    the URL check, which comes first. *)
Lemma missing_token_answers :
  POST (mkEnv None) good_request
  <> Ret (mkResponse (ErrorBody "Missing token configuration") 500)
  /\ POST (mkEnv None) good_request
     = Ret (mkResponse (ErrorBody "Missing GITHUB_TOKEN in .env.local") 500)
  /\ POST (mkEnv None) bad_request
     = Ret (mkResponse (ErrorBody "Invalid GitHub PR URL") 400).
Proof.
  assert (E : POST (mkEnv None) good_request
              = Ret (mkResponse (ErrorBody "Missing GITHUB_TOKEN in .env.local") 500))
    by (vm_compute; reflexivity).
  split; [|split; [exact E|vm_compute; reflexivity]].
  rewrite E. intros H. apply Ret_inj in H. discriminate H.
Qed.

(* ===================================================================== *)
(** ** The examples of the specification *)
(* ===================================================================== *)

Example analyze_empty :
  analyze []
  = Ok (mkReport (mkMetrics 0 0 0 0) (mkRisk "low" 0 []) [] []).
Proof. reflexivity. Qed.

Example analyze_login_change :
  exists rep,
    analyze login_change = Ok rep
    /\ churn (metrics rep) = 60
    /\ reasons (risk rep)
       = ["Touches auth/security related code"; "Code changed but tests were not updated"]
    /\ score (risk rep) = 5 /\ level (risk rep) = "medium"
    /\ hotspots rep = [mkHotspot "src/auth" 60].
Proof.
  exists (report_of login_change). repeat split; vm_compute; reflexivity.
Qed.

Example analyze_thirty_files :
  exists rep,
    analyze thirty_files = Ok rep
    /\ totalFiles (metrics rep) = 30
    /\ reasons (risk rep) = ["Large PR: many files changed"]
    /\ score (risk rep) = 2 /\ level (risk rep) = "low".
Proof.
  exists (report_of thirty_files).
  split; [vm_compute; reflexivity|]. split; [vm_compute; reflexivity|].
  split; [vm_compute; reflexivity|]. split; vm_compute; reflexivity.
Qed.

(* ===================================================================== *)
(** ** What the matcher can match *)
(* ===================================================================== *)

Lemma or_else_Some (a b : option MatchState) (m : MatchState) :
  or_else a b = Some m -> a = Some m \/ (a = None /\ b = Some m).
Proof. destruct a; simpl; intros H; [left|right]; auto. Qed.

(** The result of the matcher comes from a state that the pattern
    matches and that the continuation accepts. *)
Lemma matcher_sound (r : regex) :
  forall (x : MatchState) (c : Continuation) (m : MatchState),
    matcher r x c = Some m -> exists y, Matches r x y /\ c y = Some m.
Proof.
  induction r as [|ch|invert members|r1 IH1 r2 IH2|r1 IH1 r2 IH2|k r IH|r IH|r IH| | |];
    intros x c m H; cbn [matcher] in H.
  - exists x. split; [constructor|assumption].
  - unfold char_step in H. destruct (rest x) as [|a s] eqn:E; [discriminate|].
    destruct (same_char a ch) eqn:Ea; [|discriminate].
    exists (advance x a s). split; [now constructor|assumption].
  - unfold char_step in H. destruct (rest x) as [|a s] eqn:E; [discriminate|].
    destruct (xorb _ _) eqn:Ea; [|discriminate].
    exists (advance x a s). split; [now constructor|assumption].
  - apply IH1 in H as [y [Hy H]]. apply IH2 in H as [z [Hz H]].
    exists z. split; [econstructor; eassumption|assumption].
  - apply or_else_Some in H as [H|[_ H]].
    + apply IH1 in H as [y [Hy H]]. exists y. split; [now apply M_DisjL|assumption].
    + apply IH2 in H as [y [Hy H]]. exists y. split; [now apply M_DisjR|assumption].
  - apply IH in H as [y [Hy H]]. exists (set_capture k x y).
    split; [now constructor|assumption].
  - apply or_else_Some in H as [H|[_ H]].
    + apply IH in H as [y [Hy H]]. destruct (progressed x y) eqn:P; [|discriminate].
      exists y. split; [now apply M_OptSome|assumption].
    + exists x. split; [apply M_OptNone|assumption].
  - apply IH in H as [y [Hy H]].
    assert (Hplus : Matches (Plus r) x y) by now apply M_PlusOne.
    clear Hy. set (fuel := String.length (rest y)) in H. clearbody fuel.
    revert y Hplus H. induction fuel as [|fuel IHf]; intros y Hplus H.
    + exists y. split; assumption.
    + apply or_else_Some in H as [H|[_ H]].
      * apply IH in H as [z [Hz H]]. destruct (progressed y z) eqn:P; [|discriminate].
        apply (IHf z); [|assumption]. eapply M_PlusMore; eassumption.
      * exists y. split; assumption.
  - destruct (before x) eqn:E; [discriminate|].
    exists x. split; [now constructor|assumption].
  - destruct (rest x) eqn:E; [|discriminate].
    exists x. split; [now constructor|assumption].
  - destruct (xorb _ _) eqn:E; [|discriminate].
    exists x. split; [now constructor|assumption].
Qed.

Lemma exec_from_position (r : regex) (s : string) :
  forall (prev : option ascii) (m : MatchState),
    exec_from r prev s = Some m ->
    exists pre t prev', s = pre ++ t /\ matcher r (mkState prev' t []) Some = Some m.
Proof.
  induction s as [|a s IH]; intros prev m H; cbn [exec_from] in H.
  - destruct (matcher r _ Some) as [y|] eqn:E; [|discriminate].
    exists EmptyString, EmptyString, prev. split; [reflexivity|]. congruence.
  - destruct (matcher r _ Some) as [y|] eqn:E.
    + exists EmptyString, (String a s), prev. split; [reflexivity|]. congruence.
    + apply IH in H as [pre [t [prev' [-> H]]]].
      exists (String a pre), t, prev'. split; [reflexivity|assumption].
Qed.

Lemma Matches_Empty_inv (x y : MatchState) : Matches Empty x y -> y = x.
Proof. intros H. inversion H. reflexivity. Qed.

Lemma Matches_Char_inv (ch : ascii) (x y : MatchState) :
  Matches (Char ch) x y ->
  exists a s, rest x = String a s /\ same_char a ch = true /\ y = advance x a s.
Proof. intros H. inversion H; subst. eauto. Qed.

Lemma Matches_Class_inv (invert : bool) (members : list ascii) (x y : MatchState) :
  Matches (CharClass invert members) x y ->
  exists a s, rest x = String a s /\ in_class invert members a = true
              /\ y = advance x a s.
Proof. intros H. inversion H; subst. unfold in_class. eauto. Qed.

Lemma Matches_Seq_inv (r1 r2 : regex) (x z : MatchState) :
  Matches (Seq r1 r2) x z -> exists y, Matches r1 x y /\ Matches r2 y z.
Proof. intros H. inversion H; subst. eauto. Qed.

Lemma Matches_Group_inv (n : nat) (r : regex) (x z : MatchState) :
  Matches (Group n r) x z -> exists y, Matches r x y /\ z = set_capture n x y.
Proof. intros H. inversion H; subst. eauto. Qed.

Lemma Matches_Opt_inv (r : regex) (x y : MatchState) :
  Matches (Opt r) x y -> y = x \/ (Matches r x y /\ progressed x y = true).
Proof. intros H. inversion H; subst; auto. Qed.

Lemma Matches_lit (w : string) :
  forall x y, Matches (lit w) x y -> skip_ci w x = Some y.
Proof.
  induction w as [|ch w IH]; intros x y H.
  - apply Matches_Empty_inv in H. now subst.
  - destruct w as [|ch' w].
    + apply Matches_Char_inv in H as [a [s [E [Ea ->]]]].
      cbn [skip_ci]. now rewrite E, Ea.
    + change (lit (String ch (String ch' w)))
        with (Seq (Char ch) (lit (String ch' w))) in H.
      apply Matches_Seq_inv in H as [y' [H1 H2]].
      apply Matches_Char_inv in H1 as [a [s [E [Ea ->]]]].
      cbn [skip_ci]. rewrite E, Ea. now apply IH.
Qed.

Lemma skip_ci_split (w : string) (x y : MatchState) :
  skip_ci w x = Some y ->
  exists u, rest x = u ++ rest y /\ equal_ci w u = true /\ captures y = captures x.
Proof.
  intros H. pose proof (skip_ci_strip w x) as Hs. rewrite H in Hs.
  destruct (strip_ci w (rest x)) as [t|] eqn:E; [|contradiction].
  destruct Hs as [Hr Hc]. apply strip_ci_split in E as [u [Hu Hw]].
  exists u. rewrite Hr. now repeat split.
Qed.

Lemma list_ascii_of_string_app (s t : string) :
  list_ascii_of_string (s ++ t)
  = (list_ascii_of_string s ++ list_ascii_of_string t)%list.
Proof. induction s as [|c s IH]; simpl; [reflexivity|now rewrite IH]. Qed.

Lemma string_app_assoc (s t u : string) : (s ++ t) ++ u = s ++ (t ++ u).
Proof. induction s as [|c s IH]; simpl; [reflexivity|now rewrite IH]. Qed.

Lemma string_app_nil_r (s : string) : s ++ EmptyString = s.
Proof. induction s as [|c s IH]; simpl; [reflexivity|now rewrite IH]. Qed.

Lemma string_length_app (s t : string) :
  String.length (s ++ t) = (String.length s + String.length t)%nat.
Proof. induction s as [|c s IH]; simpl; [reflexivity|now rewrite IH]. Qed.

(** What a class repeated once or more matches: a string of characters
    of the class that is not empty. *)
Lemma Matches_plus_class (invert : bool) (members : list ascii) (x y : MatchState) :
  Matches (Plus (CharClass invert members)) x y ->
  exists w, rest x = w ++ rest y
            /\ w <> EmptyString
            /\ forallb (in_class invert members) (list_ascii_of_string w) = true
            /\ captures y = captures x.
Proof.
  intros H. remember (Plus (CharClass invert members)) as r eqn:Er.
  induction H as [| | | | | | | | |r0 x y H _|r0 x y z _ IH H _ _| | |];
    try discriminate; inversion Er; subst.
  - apply Matches_Class_inv in H as [a [s [E [Ea ->]]]].
    exists (String a EmptyString). cbn [rest advance captures].
    repeat split; [assumption|discriminate|]. cbn. now rewrite Ea.
  - destruct (IH eq_refl) as [w [Hw [Hne [Hall Hc]]]].
    apply Matches_Class_inv in H as [a [s [E [Ea ->]]]].
    exists (w ++ String a EmptyString).
    cbn [rest advance captures]. repeat split.
    + rewrite Hw, E, string_app_assoc. reflexivity.
    + destruct w; discriminate.
    + rewrite list_ascii_of_string_app, forallb_app, Hall. cbn. now rewrite Ea.
    + assumption.
Qed.

Lemma substring_prefix (w t : string) : substring 0 (String.length w) (w ++ t) = w.
Proof.
  induction w as [|c w IH]; cbn [String.length append substring].
  - destruct t; reflexivity.
  - now rewrite IH.
Qed.

Lemma consumed_prefix (x y : MatchState) (w : string) :
  rest x = w ++ rest y -> consumed x y = w.
Proof.
  intros H. unfold consumed. rewrite H, string_length_app.
  replace (String.length w + String.length (rest y) - String.length (rest y))%nat
    with (String.length w) by lia.
  apply substring_prefix.
Qed.

Lemma in_class_not_slash (a : ascii) :
  in_class true ["/"%char] a = negb (Ascii.eqb a "/").
Proof. each_ascii a; reflexivity. Qed.

Lemma in_class_digit (a : ascii) :
  in_class false ["0"; "1"; "2"; "3"; "4"; "5"; "6"; "7"; "8"; "9"]%char a = is_digit a.
Proof. each_ascii a; reflexivity. Qed.

Lemma strip_ci_app (w1 w2 s : string) :
  strip_ci (w1 ++ w2) s
  = match strip_ci w1 s with Some t => strip_ci w2 t | None => None end.
Proof.
  revert s. induction w1 as [|ch w1 IH]; intros s; [reflexivity|].
  destruct s as [|a s]; simpl; [reflexivity|].
  destruct (same_char a ch); [apply IH|reflexivity].
Qed.

Lemma equal_ci_app (w1 w2 u1 u2 : string) :
  equal_ci w1 u1 = true -> equal_ci w2 u2 = true -> equal_ci (w1 ++ w2) (u1 ++ u2) = true.
Proof.
  intros H1 H2. unfold equal_ci. rewrite strip_ci_app.
  assert (E : strip_ci w1 (u1 ++ u2) = Some u2)
    by (apply strip_ci_split; now exists u1).
  rewrite E. exact H2.
Qed.

Lemma Matches_opt_char (ch : ascii) (x y : MatchState) :
  Matches (Opt (Char ch)) x y ->
  exists (taken : bool) (u : string),
    rest x = u ++ rest y
    /\ equal_ci (if taken then String ch EmptyString else EmptyString) u = true
    /\ captures y = captures x.
Proof.
  intros H. apply Matches_Opt_inv in H as [->|[H _]].
  - exists false, EmptyString. repeat split.
  - apply Matches_Char_inv in H as [a [s [E [Ea ->]]]].
    exists true, (String a EmptyString). cbn [rest advance captures].
    repeat split; [assumption|]. unfold equal_ci. cbn. now rewrite Ea.
Qed.

Lemma Matches_opt_group_lit (k : nat) (w : string) (x y : MatchState) :
  Matches (Opt (Group k (lit w))) x y ->
  exists (taken : bool) (u : string),
    rest x = u ++ rest y
    /\ equal_ci (if taken then w else EmptyString) u = true.
Proof.
  intros H. apply Matches_Opt_inv in H as [->|[H _]].
  - exists false, EmptyString. repeat split.
  - apply Matches_Group_inv in H as [y' [H ->]].
    apply Matches_lit, skip_ci_split in H as [u [E [Eu _]]].
    exists true, u. cbn [rest set_capture]. now split.
Qed.

Lemma Matches_group_plus_class (k : nat) (invert : bool) (members : list ascii)
      (x y : MatchState) :
  Matches (Group k (Plus (CharClass invert members))) x y ->
  exists w, rest x = w ++ rest y
            /\ w <> EmptyString
            /\ forallb (in_class invert members) (list_ascii_of_string w) = true
            /\ captures y = (k, w) :: captures x.
Proof.
  intros H. apply Matches_Group_inv in H as [y' [H ->]].
  apply Matches_plus_class in H as [w [E [Hne [Hall Hc]]]].
  exists w. cbn [rest set_capture captures]. repeat split; try assumption.
  now rewrite (consumed_prefix x y' w E), Hc.
Qed.

Lemma forallb_pointwise {A : Type} (f g : A -> bool) (l : list A) :
  (forall a, f a = g a) -> forallb f l = forallb g l.
Proof.
  intros H. induction l as [|a l IH]; simpl; [reflexivity|]. now rewrite H, IH.
Qed.

(** A match of [pr_url_re] in a string: the parts of the string and the
    groups of the match. *)
Lemma pr_url_match_sound (url : string) (m : MatchState) :
  exec_from pr_url_re None url = Some m ->
  exists (secure www : bool) (before scheme host o r pull d after : string),
    url = before ++ scheme ++ host ++ o ++ "/" ++ r ++ pull ++ d ++ after
    /\ equal_ci (pr_scheme secure) scheme = true
    /\ equal_ci (pr_host www) host = true
    /\ equal_ci "/pull/" pull = true
    /\ o <> EmptyString /\ no_slash o = true
    /\ r <> EmptyString /\ no_slash r = true
    /\ d <> EmptyString /\ all_digits d = true
    /\ capture 2 (captures m) = Some o
    /\ capture 3 (captures m) = Some r
    /\ capture 4 (captures m) = Some d.
Proof.
  intros E.
  apply exec_from_position in E as [before [t [prev [Etrim E]]]].
  apply matcher_sound in E as [y [HM Hy]]. inversion Hy; subst y; clear Hy.
  unfold pr_url_re in HM.
  apply Matches_Seq_inv in HM as [x1 [H1 HM]].
  apply Matches_Seq_inv in HM as [x2 [H2 HM]].
  apply Matches_Seq_inv in HM as [x3 [H3 HM]].
  apply Matches_Seq_inv in HM as [x4 [H4 HM]].
  apply Matches_Seq_inv in HM as [x5 [H5 HM]].
  apply Matches_Seq_inv in HM as [x6 [H6 HM]].
  apply Matches_Seq_inv in HM as [x7 [H7 HM]].
  apply Matches_Seq_inv in HM as [x8 [H8 HM]].
  apply Matches_Seq_inv in HM as [x9 [H9 H10]].
  apply Matches_lit, skip_ci_split in H1 as [u1 [E1 [W1 _]]].
  apply Matches_opt_char in H2 as [secure [u2 [E2 [W2 _]]]].
  apply Matches_lit, skip_ci_split in H3 as [u3 [E3 [W3 _]]].
  apply Matches_opt_group_lit in H4 as [www [u4 [E4 W4]]].
  apply Matches_lit, skip_ci_split in H5 as [u5 [E5 [W5 _]]].
  apply Matches_group_plus_class in H6 as [o [E6 [No [Co K6]]]].
  apply Matches_Char_inv in H7 as [a [s [E7 [Ea ->]]]].
  rewrite same_char_slash in Ea. apply Ascii.eqb_eq in Ea. subst a.
  apply Matches_group_plus_class in H8 as [r [E8 [Nr [Cr K8]]]].
  apply Matches_lit, skip_ci_split in H9 as [u9 [E9 [W9 K9]]].
  apply Matches_group_plus_class in H10 as [d [E10 [Nd [Cd K10]]]].
  cbn [rest advance captures] in *.
  rewrite K10, K9, K8, K6. cbn [capture Nat.eqb].
  exists secure, www, before, (u1 ++ u2 ++ u3), (u4 ++ u5), o, r, u9, d, (rest m).
  repeat split; try assumption.
  - rewrite Etrim, E1, E2, E3, E4, E5, E6, E7, E8, E9, E10.
    rewrite !string_app_assoc. reflexivity.
  - destruct secure; cbn [pr_scheme].
    + change "https://" with ("http" ++ "s" ++ "://").
      now repeat apply equal_ci_app.
    + change "http://" with ("http" ++ EmptyString ++ "://").
      now repeat apply equal_ci_app.
  - destruct www; cbn [pr_host].
    + change "www.github.com/" with ("www." ++ "github.com/"). now apply equal_ci_app.
    + change "github.com/" with (EmptyString ++ "github.com/"). now apply equal_ci_app.
  - unfold no_slash. rewrite (forallb_pointwise _ (in_class true ["/"%char]));
      [exact Co|intros c; symmetry; apply in_class_not_slash].
  - unfold no_slash. rewrite (forallb_pointwise _ (in_class true ["/"%char]));
      [exact Cr|intros c; symmetry; apply in_class_not_slash].
  - unfold all_digits.
    rewrite (forallb_pointwise _ (in_class false ["0"; "1"; "2"; "3"; "4"; "5"; "6"; "7"; "8"; "9"]%char));
      [exact Cd|intros c; symmetry; apply in_class_digit].
Qed.


(* ===================================================================== *)
(** ** What the matcher tries first *)
(* ===================================================================== *)

Lemma Firstly_lit (w : string) (x y : MatchState) :
  skip_ci w x = Some y -> Firstly (lit w) x y.
Proof. intros H c m Hc. now rewrite matcher_lit, H. Qed.

Lemma Firstly_Seq (r1 r2 : regex) (x y z : MatchState) :
  Firstly r1 x y -> Firstly r2 y z -> Firstly (Seq r1 r2) x z.
Proof. intros H1 H2 c m Hc. cbn [matcher]. apply H1. now apply H2. Qed.

Lemma Firstly_Char (ch : ascii) (x : MatchState) (a : ascii) (s : string) :
  rest x = String a s -> same_char a ch = true -> Firstly (Char ch) x (advance x a s).
Proof.
  intros E Ea c m Hc. cbn [matcher]. unfold char_step. now rewrite E, Ea.
Qed.

Lemma Firstly_Group (n : nat) (r : regex) (x y : MatchState) :
  Firstly r x y -> Firstly (Group n r) x (set_capture n x y).
Proof. intros H c m Hc. cbn [matcher]. now apply H. Qed.

Lemma Firstly_Opt_taken (r : regex) (x y : MatchState) :
  Firstly r x y -> progressed x y = true -> Firstly (Opt r) x y.
Proof.
  intros H P c m Hc. cbn [matcher].
  rewrite (H (fun y => if progressed x y then c y else None) m); [reflexivity|].
  now rewrite P.
Qed.

Lemma Firstly_Opt_skipped (r : regex) (x : MatchState) :
  (forall c, matcher r x c = None) -> Firstly (Opt r) x x.
Proof. intros H c m Hc. cbn [matcher]. now rewrite H. Qed.

(** The matcher looks at its continuation through its values only. *)
Lemma matcher_ext (r : regex) :
  forall (x : MatchState) (c1 c2 : Continuation),
    (forall y, c1 y = c2 y) -> matcher r x c1 = matcher r x c2.
Proof.
  induction r as [|ch|invert members|r1 IH1 r2 IH2|r1 IH1 r2 IH2|k r IH|r IH|r IH| | |];
    intros x c1 c2 H; cbn [matcher]; unfold char_step; rewrite ?H; try reflexivity.
  - destruct (rest x); [reflexivity|]. destruct (same_char _ _); [apply H|reflexivity].
  - destruct (rest x); [reflexivity|]. destruct (xorb _ _); [apply H|reflexivity].
  - apply IH1. intros y. now apply IH2.
  - now rewrite (IH1 x c1 c2 H), (IH2 x c1 c2 H).
  - apply IH. intros y. apply H.
  - f_equal. apply IH. intros y. now rewrite H.
  - apply IH. intros y. generalize (String.length (rest y)). intros fuel. revert y.
    induction fuel as [|fuel IHf]; intros y; [apply H|].
    rewrite H. f_equal. apply IH. intros z. now rewrite IHf.
Qed.

Lemma matcher_Plus (r : regex) (x : MatchState) (c : Continuation) :
  matcher (Plus r) x c
  = matcher r x (fun y => more_of r c (String.length (rest y)) y).
Proof.
  cbn [matcher]. apply matcher_ext. intros y.
  generalize (String.length (rest y)). intros fuel. revert y.
  induction fuel as [|fuel IHf]; intros y; [reflexivity|].
  cbn [more_of]. f_equal. apply matcher_ext. intros z. now rewrite IHf.
Qed.

Lemma matcher_Class (invert : bool) (members : list ascii) (x : MatchState)
      (c : Continuation) :
  matcher (CharClass invert members) x c = char_step (in_class invert members) x c.
Proof. reflexivity. Qed.

Lemma last_char_cons (a : ascii) (w : string) (b : option ascii) :
  match last_char (String a w) with Some l => Some l | None => b end
  = match last_char w with Some l => Some l | None => Some a end.
Proof.
  destruct w as [|a' w]; [reflexivity|].
  change (last_char (String a (String a' w))) with (last_char (String a' w)).
  destruct (last_char_some a' w) as [l Hl]. now rewrite Hl.
Qed.

Lemma more_of_class (invert : bool) (members : list ascii) (c : Continuation)
      (m : MatchState) (t : string) :
  match t with
  | String a _ => in_class invert members a = false
  | EmptyString => True
  end ->
  forall w y,
    rest y = w ++ t ->
    forallb (in_class invert members) (list_ascii_of_string w) = true ->
    c (mkState (match last_char w with Some l => Some l | None => before y end)
               t (captures y)) = Some m ->
    more_of (CharClass invert members) c (String.length (rest y)) y = Some m.
Proof.
  intros Ht w. induction w as [|a w IH]; intros y E Hall Hc.
  - cbn [last_char append] in *. destruct y as [b r caps]. cbn [rest before captures] in *.
    subst r. destruct t as [|a' t']; cbn [String.length more_of]; [exact Hc|].
    rewrite matcher_Class. unfold char_step. cbn [rest]. rewrite Ht. exact Hc.
  - cbn [list_ascii_of_string forallb] in Hall.
    apply andb_true_iff in Hall as [Ha Hall].
    rewrite E. cbn [append String.length more_of].
    rewrite matcher_Class. unfold char_step. rewrite E. cbn [append]. rewrite Ha.
    assert (P : progressed y (advance y a (w ++ t)) = true).
    { unfold progressed. cbn [rest advance]. rewrite E. cbn [append String.length].
      apply Nat.ltb_lt. lia. }
    rewrite P.
    pose proof (IH (advance y a (w ++ t)) eq_refl Hall) as IH'.
    cbn [rest advance before captures] in IH'. rewrite IH'; [reflexivity|].
    now rewrite last_char_cons in Hc.
Qed.

(** A class repeated once or more takes first the longest run of its
    characters. *)
Lemma Firstly_Plus_class (invert : bool) (members : list ascii) (w t : string) :
  forall x,
    rest x = w ++ t ->
    w <> EmptyString ->
    forallb (in_class invert members) (list_ascii_of_string w) = true ->
    match t with
    | String a _ => in_class invert members a = false
    | EmptyString => True
    end ->
    Firstly (Plus (CharClass invert members)) x (mkState (last_char w) t (captures x)).
Proof.
  intros x E Hne Hall Ht c m Hc. rewrite matcher_Plus, matcher_Class.
  destruct w as [|a w]; [contradiction|]. clear Hne.
  cbn [list_ascii_of_string forallb] in Hall. apply andb_true_iff in Hall as [Ha Hall].
  unfold char_step. rewrite E. cbn [append]. rewrite Ha.
  pose proof (more_of_class invert members c m t Ht w (advance x a (w ++ t))
                            eq_refl Hall) as H.
  cbn [rest advance before captures] in H. apply H.
  destruct (last_char_some a w) as [l Hl]. rewrite Hl in Hc.
  pose proof (last_char_cons a w None) as L. rewrite Hl in L. now rewrite <- L.
Qed.

Lemma skip_ci_of_equal (w u t : string) (x : MatchState) :
  equal_ci w u = true -> rest x = u ++ t ->
  exists y, skip_ci w x = Some y /\ rest y = t /\ captures y = captures x.
Proof.
  intros Hw E. pose proof (skip_ci_strip w x) as H.
  assert (S : strip_ci w (rest x) = Some t).
  { rewrite E. apply strip_ci_split. now exists u. }
  rewrite S in H. destruct (skip_ci w x) as [y|]; [|contradiction].
  exists y. destruct H as [H1 H2]. now repeat split.
Qed.

Lemma equal_ci_app_inv (w1 w2 u : string) :
  equal_ci (w1 ++ w2) u = true ->
  exists u1 u2, u = u1 ++ u2 /\ equal_ci w1 u1 = true /\ equal_ci w2 u2 = true.
Proof.
  unfold equal_ci at 1. rewrite strip_ci_app.
  destruct (strip_ci w1 u) as [t|] eqn:E; [|discriminate]. intros H.
  apply strip_ci_split in E as [u1 [-> H1]]. exists u1, t. repeat split; try assumption.
Qed.

Lemma equal_ci_cons (ch : ascii) (w u : string) :
  equal_ci (String ch w) u = true ->
  exists a u', u = String a u' /\ same_char a ch = true /\ equal_ci w u' = true.
Proof.
  unfold equal_ci. destruct u as [|a u']; simpl; [discriminate|].
  destruct (same_char a ch) eqn:E; [|discriminate]. intros H. now exists a, u'.
Qed.

Lemma equal_ci_nil (u : string) : equal_ci EmptyString u = true -> u = EmptyString.
Proof. unfold equal_ci. destruct u; [reflexivity|discriminate]. Qed.

Lemma colon_is_not_s (a : ascii) : same_char a ":" = true -> same_char a "s" = false.
Proof. each_ascii a; vm_compute; congruence. Qed.

Lemma g_is_not_w (a : ascii) : same_char a "g" = true -> same_char a "w" = false.
Proof. each_ascii a; vm_compute; congruence. Qed.

Lemma exec_from_first (r : regex) (prev : option ascii) (s : string) (m : MatchState) :
  matcher r (mkState prev s []) Some = Some m -> exec_from r prev s = Some m.
Proof. intros H. destruct s; cbn [exec_from]; now rewrite H. Qed.

Lemma progressed_after (x y : MatchState) (a : ascii) (u : string) :
  rest x = String a u ++ rest y -> progressed x y = true.
Proof.
  intros E. unfold progressed. rewrite E. cbn [append String.length].
  rewrite string_length_app. apply Nat.ltb_lt. lia.
Qed.

(** The scheme of the URL. *)
Lemma scheme_first (secure : bool) (scheme t : string) (x : MatchState) (R : regex) :
  rest x = scheme ++ t ->
  equal_ci (pr_scheme secure) scheme = true ->
  exists y, rest y = t /\ captures y = captures x
            /\ forall z, Firstly R y z ->
                         Firstly (Seq (lit "http") (Seq (Opt (Char "s")) (Seq (lit "://") R)))
                                 x z.
Proof.
  intros E Hs. destruct secure; cbn [pr_scheme] in Hs.
  - change "https://" with ("http" ++ "s" ++ "://") in Hs.
    apply equal_ci_app_inv in Hs as [u1 [u' [-> [H1 Hs]]]].
    apply equal_ci_app_inv in Hs as [u2 [u3 [-> [H2 H3]]]].
    rewrite !string_app_assoc in E.
    destruct (skip_ci_of_equal _ _ _ x H1 E) as [x1 [S1 [E1 C1]]].
    apply equal_ci_cons in H2 as [a [u2' [-> [Ha H2]]]].
    apply equal_ci_nil in H2. subst u2'. cbn [append] in E1.
    destruct (skip_ci_of_equal _ _ t (advance x1 a (u3 ++ t)) H3 eq_refl)
      as [x3 [S3 [E3 C3]]].
    exists x3. repeat split; [assumption|now rewrite C3, <- C1|].
    intros z Hz. apply (Firstly_Seq _ _ x x1); [now apply Firstly_lit|].
    apply (Firstly_Seq _ _ x1 (advance x1 a (u3 ++ t))).
    + apply Firstly_Opt_taken; [now apply Firstly_Char|].
      apply (progressed_after _ _ a EmptyString). cbn [rest advance append]. exact E1.
    + apply (Firstly_Seq _ _ _ x3); [now apply Firstly_lit|assumption].
  - change "http://" with ("http" ++ "://") in Hs.
    apply equal_ci_app_inv in Hs as [u1 [u3 [-> [H1 H3]]]].
    rewrite !string_app_assoc in E.
    destruct (skip_ci_of_equal _ _ _ x H1 E) as [x1 [S1 [E1 C1]]].
    destruct (skip_ci_of_equal _ _ _ x1 H3 E1) as [x3 [S3 [E3 C3]]].
    exists x3. repeat split; [assumption|now rewrite C3|].
    intros z Hz. apply (Firstly_Seq _ _ x x1); [now apply Firstly_lit|].
    apply (Firstly_Seq _ _ x1 x1).
    + apply Firstly_Opt_skipped. intros c. cbn [matcher]. unfold char_step.
      apply equal_ci_cons in H3 as [a [u3' [-> [Ha _]]]].
      rewrite E1. cbn [append]. now rewrite (colon_is_not_s a Ha).
    + apply (Firstly_Seq _ _ _ x3); [now apply Firstly_lit|assumption].
Qed.

(** The host of the URL. *)
Lemma host_first (www : bool) (host t : string) (x : MatchState) (R : regex) :
  rest x = host ++ t ->
  equal_ci (pr_host www) host = true ->
  exists y, rest y = t
            /\ (forall k, (2 <= k)%nat -> capture k (captures y) = capture k (captures x))
            /\ forall z, Firstly R y z ->
                         Firstly (Seq (Opt (Group 1 (lit "www."))) (Seq (lit "github.com/") R))
                                 x z.
Proof.
  intros E Hh. destruct www; cbn [pr_host] in Hh.
  - change "www.github.com/" with ("www." ++ "github.com/") in Hh.
    apply equal_ci_app_inv in Hh as [u4 [u5 [-> [H4 H5]]]].
    rewrite !string_app_assoc in E.
    destruct (skip_ci_of_equal _ _ _ x H4 E) as [x4 [S4 [E4 C4]]].
    destruct (skip_ci_of_equal _ _ t (set_capture 1 x x4) H5 E4) as [x5 [S5 [E5 C5]]].
    exists x5. repeat split; [assumption| |].
    + intros k Hk. rewrite C5. cbn [set_capture captures capture].
      destruct k as [|[|k]]; try lia. cbn [Nat.eqb]. now rewrite C4.
    + intros z Hz. apply (Firstly_Seq _ _ x (set_capture 1 x x4)).
      * apply Firstly_Opt_taken; [now apply Firstly_Group, Firstly_lit|].
        apply equal_ci_cons in H4 as [a [u4' [-> _]]].
        apply (progressed_after _ _ a u4'). cbn [rest set_capture]. now rewrite E, E4.
      * apply (Firstly_Seq _ _ _ x5); [now apply Firstly_lit|assumption].
  - destruct (skip_ci_of_equal _ _ _ x Hh E) as [x5 [S5 [E5 C5]]].
    exists x5. repeat split; [assumption|intros; now rewrite C5|].
    intros z Hz. apply (Firstly_Seq _ _ x x).
    + apply Firstly_Opt_skipped. intros c. cbn [matcher]. rewrite matcher_lit.
      apply equal_ci_cons in Hh as [a [h' [-> [Ha _]]]].
      cbn [skip_ci]. rewrite E. cbn [append]. now rewrite (g_is_not_w a Ha).
    + apply (Firstly_Seq _ _ _ x5); [now apply Firstly_lit|assumption].
Qed.

(** The matcher of [pr_url_re] where the URL of a pull request starts: the
    first state it hands over has the owner, the repository and the digits
    in the groups 2, 3 and 4. *)
Lemma pr_url_first (x0 : MatchState) (secure www : bool)
      (scheme host o r pull d after : string) :
  rest x0 = scheme ++ host ++ o ++ "/" ++ r ++ pull ++ d ++ after ->
  equal_ci (pr_scheme secure) scheme = true ->
  equal_ci (pr_host www) host = true ->
  equal_ci "/pull/" pull = true ->
  o <> EmptyString -> no_slash o = true ->
  r <> EmptyString -> no_slash r = true ->
  d <> EmptyString -> all_digits d = true ->
  match after with String a _ => is_digit a = false | EmptyString => True end ->
  exists m, Firstly pr_url_re x0 m
            /\ capture 2 (captures m) = Some o
            /\ capture 3 (captures m) = Some r
            /\ capture 4 (captures m) = Some d.
Proof.
  intros Htrim Hs Hh Hp No So Nr Sr Nd Dd Ha.
  assert (Co : forallb (in_class true ["/"%char]) (list_ascii_of_string o) = true).
  { rewrite (forallb_pointwise _ _ _ in_class_not_slash). exact So. }
  assert (Cr : forallb (in_class true ["/"%char]) (list_ascii_of_string r) = true).
  { rewrite (forallb_pointwise _ _ _ in_class_not_slash). exact Sr. }
  assert (Cd : forallb (in_class false ["0"; "1"; "2"; "3"; "4"; "5"; "6"; "7"; "8"; "9"]%char)
                       (list_ascii_of_string d) = true).
  { rewrite (forallb_pointwise _ _ _ in_class_digit). exact Dd. }
  destruct (scheme_first secure scheme _ x0
              (Seq (Opt (Group 1 (lit "www.")))
                 (Seq (lit "github.com/")
                    (Seq (Group 2 (Plus (CharClass true ["/"%char])))
                       (Seq (Char "/")
                          (Seq (Group 3 (Plus (CharClass true ["/"%char])))
                             (Seq (lit "/pull/") (Group 4 (Plus digit))))))))
              Htrim Hs) as [x3 [E3 [_ F3]]].
  destruct (host_first www host _ x3
              (Seq (Group 2 (Plus (CharClass true ["/"%char])))
                 (Seq (Char "/")
                    (Seq (Group 3 (Plus (CharClass true ["/"%char])))
                       (Seq (lit "/pull/") (Group 4 (Plus digit))))))
              E3 Hh) as [x5 [E5 [_ F5]]].
  set (y6 := mkState (last_char o) ("/" ++ r ++ pull ++ d ++ after) (captures x5)).
  set (x6 := set_capture 2 x5 y6).
  set (x7 := advance x6 "/" (r ++ pull ++ d ++ after)).
  set (y8 := mkState (last_char r) (pull ++ d ++ after) (captures x7)).
  set (x8 := set_capture 3 x7 y8).
  destruct (skip_ci_of_equal "/pull/" pull (d ++ after) x8 Hp eq_refl)
    as [x9 [S9 [E9 C9]]].
  set (y10 := mkState (last_char d) after (captures x9)).
  set (m := set_capture 4 x9 y10).
  assert (Fm : Firstly pr_url_re x0 m).
  { apply F3, F5.
    apply (Firstly_Seq _ _ x5 x6).
    { apply Firstly_Group. apply Firstly_Plus_class; try assumption. reflexivity. }
    apply (Firstly_Seq _ _ x6 x7).
    { apply Firstly_Char; reflexivity. }
    apply (Firstly_Seq _ _ x7 x8).
    { apply Firstly_Group. apply Firstly_Plus_class; try assumption; [reflexivity|].
      apply equal_ci_cons in Hp as [a [p' [-> [Hslash _]]]]. cbn [append].
      rewrite same_char_slash in Hslash. apply Ascii.eqb_eq in Hslash. subst a.
      reflexivity. }
    apply (Firstly_Seq _ _ x8 x9); [now apply Firstly_lit|].
    apply Firstly_Group. unfold digit. apply Firstly_Plus_class; try assumption.
    destruct after as [|a after']; [exact I|]. now rewrite in_class_digit. }
  assert (K : captures m = (4%nat, d) :: (3%nat, r) :: (2%nat, o) :: captures x5).
  { unfold m, set_capture. cbn [captures].
    rewrite (consumed_prefix x9 y10 d E9).
    unfold y10. cbn [captures]. rewrite C9. unfold x8, set_capture. cbn [captures].
    rewrite (consumed_prefix x7 y8 r eq_refl).
    unfold y8, x7, advance, x6, set_capture. cbn [captures].
    rewrite (consumed_prefix x5 y6 o E5). reflexivity. }
  exists m. rewrite K. repeat split; [exact Fm].
Qed.




Lemma trim_start_white (l t : string) :
  white l = true -> JS.trim_start (l ++ t) = JS.trim_start t.
Proof.
  unfold white. induction l as [|c l IH]; intros H; [reflexivity|].
  cbn [list_ascii_of_string forallb] in H. apply andb_true_iff in H as [Hc H].
  cbn [append JS.trim_start]. rewrite Hc. now apply IH.
Qed.

Lemma trim_end_all_white (r : string) : white r = true -> JS.trim_end r = EmptyString.
Proof.
  unfold white. induction r as [|c r IH]; intros H; [reflexivity|].
  cbn [list_ascii_of_string forallb] in H. apply andb_true_iff in H as [Hc H].
  cbn [JS.trim_end]. now rewrite (IH H), Hc.
Qed.

Lemma trim_end_white (t r : string) :
  white r = true -> JS.trim_end (t ++ r) = JS.trim_end t.
Proof.
  intros H. induction t as [|c t IH].
  - cbn [append JS.trim_end]. now apply trim_end_all_white.
  - cbn [append JS.trim_end]. now rewrite IH.
Qed.

Lemma trim_start_app (s r : string) :
  JS.trim_start (s ++ r)
  = match JS.trim_start s with
    | EmptyString => JS.trim_start r
    | t => t ++ r
    end.
Proof.
  induction s as [|c s IH]; [cbn; destruct (JS.trim_start r); reflexivity|].
  cbn [append JS.trim_start]. destruct (JS.is_white_space c); [exact IH|reflexivity].
Qed.

Lemma trim_start_all_white (r : string) : white r = true -> JS.trim_start r = EmptyString.
Proof.
  intros H. rewrite <- (string_app_nil_r r). now rewrite trim_start_white.
Qed.

(** White space around the input does not count: [parsePrUrl] gives the
    same on an input and on the input between two strings of white space. *)
Theorem parsePrUrl_ignores_padding (l s r : string) :
  white l = true -> white r = true ->
  parsePrUrl (Some (l ++ s ++ r)) = parsePrUrl (Some s).
Proof.
  intros Hl Hr. unfold parsePrUrl. cbn [JS.join_item].
  assert (E : JS.trim (l ++ s ++ r) = JS.trim s).
  { unfold JS.trim. rewrite trim_start_white by assumption. rewrite trim_start_app.
    destruct (JS.trim_start s) as [|c t] eqn:Es.
    - now rewrite (trim_start_all_white r Hr).
    - now apply trim_end_white. }
  now rewrite E.
Qed.

Lemma parsePrUrl_ignores_padding_witness :
  parsePrUrl (Some ("  " ++ "https://github.com/o/r/pull/7" ++ String "010" EmptyString))
  = parsePrUrl (Some "https://github.com/o/r/pull/7").
Proof.
  apply (parsePrUrl_ignores_padding "  " "https://github.com/o/r/pull/7"
                                    (String "010" EmptyString));
    reflexivity.
Defined.

Lemma exec_from_found (r : regex) (t : string) :
  (forall prev, matcher r (mkState prev t []) Some <> None) ->
  forall (pre : string) (prev : option ascii), exec_from r prev (pre ++ t) <> None.
Proof.
  intros H. induction pre as [|a pre IH]; intros prev.
  - cbn [append]. specialize (H prev).
    destruct (matcher r (mkState prev t []) Some) as [m|] eqn:E; [|congruence].
    now rewrite (exec_from_first _ _ _ _ E).
  - cbn [append exec_from].
    destruct (matcher r _ Some); [discriminate|apply IH].
Qed.

(** The digits a string starts with. *)
Lemma leading_digits (s : string) :
  exists d t, s = d ++ t /\ all_digits d = true
              /\ match t with String a _ => is_digit a = false | EmptyString => True end.
Proof.
  induction s as [|a s [d [t [E [Hd Ht]]]]].
  - exists EmptyString, EmptyString. repeat split.
  - destruct (is_digit a) eqn:Ea.
    + exists (String a d), t. subst s. repeat split; [|assumption].
      unfold all_digits. cbn [list_ascii_of_string forallb]. now rewrite Ea.
    + exists EmptyString, (String a s). repeat split. assumption.
Qed.

Lemma all_digits_app (d e : string) :
  all_digits d = true -> all_digits e = true -> all_digits (d ++ e) = true.
Proof.
  unfold all_digits. intros Hd He. rewrite list_ascii_of_string_app, forallb_app.
  now rewrite Hd, He.
Qed.

(** [parsePrUrl] returns [null] exactly on the inputs in which no URL of a
    pull request stands: no place of the trimmed input where a scheme
    [http://] or [https://], the host with or without [www.], an owner and
    a repository without slash and not empty, [/pull/] and a digit follow
    one another, the letters in either case. *)
Theorem parsePrUrl_null (input : option string) :
  parsePrUrl input = None
  <-> ~ exists (secure www : bool) (before scheme host o r pull d after : string),
        JS.trim (JS.join_item input)
        = before ++ scheme ++ host ++ o ++ "/" ++ r ++ pull ++ d ++ after
        /\ equal_ci (pr_scheme secure) scheme = true
        /\ equal_ci (pr_host www) host = true
        /\ equal_ci "/pull/" pull = true
        /\ o <> EmptyString /\ no_slash o = true
        /\ r <> EmptyString /\ no_slash r = true
        /\ d <> EmptyString /\ all_digits d = true.
Proof.
  unfold parsePrUrl. cbv zeta. unfold exec. split.
  - intros Hnone [secure [www [before [scheme [host [o [r [pull [d [after H]]]]]]]]]].
    destruct H as [H1 [H2 [H3 [H4 [H5 [H6 [H7 [H8 [H9 H10]]]]]]]]].
    destruct (leading_digits after) as [e [t [-> [He Ht]]]].
    assert (Hfound : exec_from pr_url_re None (JS.trim (JS.join_item input)) <> None).
    { rewrite H1. apply exec_from_found. intros prev.
      destruct (pr_url_first (mkState prev
                                (scheme ++ host ++ o ++ "/" ++ r ++ pull ++ d ++ e ++ t) [])
                  secure www scheme host o r pull (d ++ e) t) as [m [Fm _]];
        try assumption.
      - cbn [rest]. now rewrite (string_app_assoc d e t).
      - destruct d; [congruence|discriminate].
      - now apply all_digits_app.
      - rewrite (Fm Some m eq_refl). discriminate. }
    destruct (exec_from pr_url_re None (JS.trim (JS.join_item input))); congruence.
  - intros Hno.
    destruct (exec_from pr_url_re None (JS.trim (JS.join_item input))) as [m|] eqn:E;
      [|reflexivity].
    exfalso. apply Hno.
    destruct (pr_url_match_sound _ m E)
      as [secure [www [before [scheme [host [o [r [pull [d [after H]]]]]]]]]].
    exists secure, www, before, scheme, host, o, r, pull, d, after.
    destruct H as [H1 [H2 [H3 [H4 [H5 [H6 [H7 [H8 [H9 [H10 _]]]]]]]]]].
    repeat split; assumption.
Qed.

(* ===================================================================== *)
(** ** Further properties of [analyze] *)
(* ===================================================================== *)







(** The two checks of size are at their bounds: the reason of many files
    is in the report exactly from 25 records on, the reason of high churn
    exactly from 800 added and deleted lines on. *)
Theorem size_checks (files : list FileRecord) (rep : Report) :
  analyze files = Ok rep ->
  (In "Large PR: many files changed" (reasons (risk rep))
   <-> (25 <= List.length files)%nat)
  /\ (In "Large PR: high churn (additions + deletions)" (reasons (risk rep))
      <-> 800 <= total_additions files + total_deletions files).
Proof.
  intros H. apply analyze_inv in H as [_ ->].
  cbn [report_of risk reasons]. unfold reasons_of. split.
  - rewrite (select_member _ (triggers files) 0 canonical_reasons_NoDup)
      by (cbn; lia).
    unfold triggers. cbn [nth]. rewrite Z.leb_le. lia.
  - rewrite (select_member _ (triggers files) 1 canonical_reasons_NoDup)
      by (cbn; lia).
    unfold triggers. cbn [nth]. now rewrite Z.leb_le.
Qed.

Lemma size_checks_witness :
  exists rep,
    analyze thirty_files = Ok rep
    /\ In "Large PR: many files changed" (reasons (risk rep)).
Proof.
  exists (report_of thirty_files).
  assert (H : analyze thirty_files = Ok (report_of thirty_files))
    by (vm_compute; reflexivity).
  split; [exact H|].
  apply (proj1 (size_checks thirty_files _ H)). vm_compute. lia.
Defined.

Lemma sum_Z_app (l1 l2 : list Z) : sum_Z (l1 ++ l2) = sum_Z l1 + sum_Z l2.
Proof.
  induction l1 as [|x l1 IH]; [reflexivity|].
  cbn [app sum_Z fold_right]. fold (sum_Z (l1 ++ l2)). fold (sum_Z l1). lia.
Qed.

Lemma sum_Z_perm (l1 l2 : list Z) : Permutation l1 l2 -> sum_Z l1 = sum_Z l2.
Proof.
  induction 1 as [|x l1 l2 _ IH|x y l|l1 l2 l3 _ IH1 _ IH2]; cbn [sum_Z fold_right] in *;
    try lia.
  fold (sum_Z l1). fold (sum_Z l2). lia.
Qed.

Lemma existsb_perm {A : Type} (p : A -> bool) (l1 l2 : list A) :
  Permutation l1 l2 -> existsb p l1 = existsb p l2.
Proof.
  induction 1 as [|x l1 l2 _ IH|x y l|l1 l2 l3 _ IH1 _ IH2]; cbn [existsb];
    try congruence.
  destruct (p x), (p y); reflexivity.
Qed.

Lemma triggers_perm (files files' : list FileRecord) :
  Permutation files files' -> triggers files = triggers files'.
Proof.
  intros H. unfold triggers, total_additions, total_deletions, names_of.
  rewrite (Permutation_length H).
  rewrite (sum_Z_perm _ _ (Permutation_map (fun f => field_or_zero (additions f)) H)).
  rewrite (sum_Z_perm _ _ (Permutation_map (fun f => field_or_zero (deletions f)) H)).
  pose proof (Permutation_map (fun f => JS.join_item (filename f)) H) as Hn.
  now rewrite !(existsb_perm _ _ _ Hn).
Qed.

(** The metrics and the risk of a report do not depend on the order of the
    records of the input. *)
Theorem order_of_files_irrelevant (files files' : list FileRecord) (rep : Report) :
  Permutation files files' ->
  analyze files = Ok rep ->
  exists rep',
    analyze files' = Ok rep'
    /\ metrics rep' = metrics rep
    /\ risk rep' = risk rep.
Proof.
  intros Hperm H. apply analyze_inv in H as [Hall ->].
  exists (report_of files'). split.
  - apply analyze_ok. eapply Permutation_Forall; eassumption.
  - cbn [report_of metrics risk]. unfold score_of, reasons_of.
    rewrite <- (triggers_perm _ _ Hperm).
    unfold total_additions, total_deletions.
    rewrite <- (Permutation_length Hperm).
    rewrite <- (sum_Z_perm _ _ (Permutation_map (fun f => field_or_zero (additions f)) Hperm)).
    rewrite <- (sum_Z_perm _ _ (Permutation_map (fun f => field_or_zero (deletions f)) Hperm)).
    split; reflexivity.
Qed.

Lemma order_of_files_irrelevant_witness :
  exists rep',
    analyze (rev bare_records) = Ok rep'
    /\ metrics rep' = metrics (report_of bare_records)
    /\ risk rep' = risk (report_of bare_records).
Proof.
  apply (order_of_files_irrelevant bare_records (rev bare_records)).
  - apply Permutation_rev.
  - reflexivity.
Defined.

(** What the flags say about the level: no reason and score 0 go together;
    one reason never gives "high"; two reasons never give "low"; three
    reasons always give "high". *)
Theorem level_by_number_of_reasons (files : list FileRecord) (rep : Report) :
  analyze files = Ok rep ->
  let n := List.length (reasons (risk rep)) in
  (reasons (risk rep) = [] <-> score (risk rep) = 0)
  /\ ((n <= 1)%nat -> level (risk rep) <> "high")
  /\ ((2 <= n)%nat -> level (risk rep) <> "low")
  /\ ((3 <= n)%nat -> level (risk rep) = "high").
Proof.
  intros H. apply analyze_inv in H as [_ ->].
  cbn [report_of risk reasons score level]. unfold score_of, reasons_of, triggers.
  destruct (25 <=? _), (800 <=? _),
    (existsb (test auth_re) _), (existsb (test db_re) _),
    (existsb (test infra_re) _), (existsb (test lock_re) _),
    (existsb has_code_extension _ && negb (existsb test_indicator _));
    vm_compute; repeat split; intros; try discriminate; try lia;
    try (exfalso; auto; fail).
Qed.

Lemma level_by_number_of_reasons_witness :
  exists rep,
    analyze every_flag = Ok rep /\ level (risk rep) = "high".
Proof.
  exists (report_of every_flag).
  assert (H : analyze every_flag = Ok (report_of every_flag))
    by (vm_compute; reflexivity).
  split; [exact H|].
  apply (proj2 (proj2 (proj2 (level_by_number_of_reasons every_flag _ H)))).
  vm_compute. lia.
Defined.

Lemma sum_map_set (m : JS.Map) (d : string) (c : Z) :
  sum_Z (List.map snd (JS.map_set m d (JS.or_zero (JS.map_get m d) + c)))
  = sum_Z (List.map snd m) + c.
Proof.
  induction m as [|[k v] m IH].
  - simpl. lia.
  - cbn [JS.map_get JS.map_set]. destruct (String.eqb k d).
    + rewrite or_zero_field. cbn [field_or_zero List.map snd sum_Z fold_right]. lia.
    + cbn [List.map snd sum_Z fold_right] in *. unfold sum_Z in IH. rewrite IH. lia.
Qed.

Lemma sum_fold_add_change (l : list (string * Z)) (m : JS.Map) :
  sum_Z (List.map snd (fold_left add_change l m))
  = sum_Z (List.map snd m) + sum_Z (List.map snd l).
Proof.
  revert m. induction l as [|[d c] l IH]; intros m.
  - simpl. lia.
  - cbn [fold_left]. rewrite IH. unfold add_change. cbn [fst snd].
    rewrite sum_map_set. cbn [List.map snd sum_Z fold_right].
    fold (sum_Z (List.map snd l)). lia.
Qed.

Lemma dir_totals_keys (l : list (string * Z)) :
  List.map fst (dir_totals l) = first_seen (List.map fst l).
Proof.
  unfold dir_totals. rewrite map_map. cbn [fst]. apply map_id.
Qed.

Lemma NoDup_firstn {A : Type} (n : nat) (l : list A) : NoDup l -> NoDup (firstn n l).
Proof.
  intros H. rewrite <- (firstn_skipn n l) in H. now apply NoDup_app_remove_r in H.
Qed.

Lemma total_of_dir_changes (d : string) (files : list FileRecord) :
  total_of d (dir_changes files) = total_changes (files_of_dir d files).
Proof.
  unfold total_of, dir_changes, total_changes, files_of_dir. f_equal.
  induction files as [|f files IH]; [reflexivity|].
  cbn [List.map filter fst].
  destruct (String.eqb (dir_of (JS.join_item (filename f))) d);
    cbn [List.map snd]; now rewrite IH.
Qed.

Lemma files_of_dir_nonempty (d : string) (files : list FileRecord) :
  In d (List.map fst (dir_changes files)) -> files_of_dir d files <> [].
Proof.
  unfold dir_changes, files_of_dir. rewrite map_map. cbn [fst].
  rewrite in_map_iff. intros [f [E Hf]] Hnil.
  assert (Hin : In f (filter (fun f => String.eqb (dir_of (JS.join_item (filename f))) d) files)).
  { apply filter_In. split; [assumption|]. now apply String.eqb_eq. }
  rewrite Hnil in Hin. contradiction.
Qed.

(** The hotspots name different directories; each one is the directory of
    a record of the input, with the sum of the [changes] of the records of
    that directory. When the input has no more than eight directories the
    hotspots sum up to the [changes] of the whole input, which is the churn
    of the metrics when every record has [changes = additions + deletions]. *)
Theorem hotspots_of_directories (files : list FileRecord) (rep : Report) :
  analyze files = Ok rep ->
  NoDup (List.map dir (hotspots rep))
  /\ (forall h, In h (hotspots rep) ->
        files_of_dir (dir h) files <> []
        /\ h_churn h = total_changes (files_of_dir (dir h) files))
  /\ ((List.length (first_seen (List.map fst (dir_changes files))) <= 8)%nat ->
      sum_Z (List.map h_churn (hotspots rep)) = total_changes files
      /\ ((forall f, In f files ->
             field_or_zero (changes f)
             = field_or_zero (additions f) + field_or_zero (deletions f)) ->
          sum_Z (List.map h_churn (hotspots rep)) = churn (metrics rep))).
Proof.
  intros H. apply analyze_inv in H as [_ ->].
  cbn [report_of hotspots metrics churn]. rewrite fold_add_change.
  set (sorted := JS.sort by_churn (dir_totals (dir_changes files))).
  assert (Hperm : Permutation (dir_totals (dir_changes files)) sorted)
    by apply sort_perm.
  split; [|split].
  - rewrite map_map. cbn [dir].
    rewrite <- firstn_map. apply NoDup_firstn.
    eapply Permutation_NoDup; [apply Permutation_map, Hperm|].
    rewrite dir_totals_keys. apply first_seen_NoDup.
  - intros h Hh. apply in_map_iff in Hh as [[d c] [<- Hin]]. cbn [dir h_churn fst snd].
    assert (Hin' : In (d, c) (dir_totals (dir_changes files))).
    { eapply Permutation_in; [apply Permutation_sym, Hperm|].
      rewrite <- (firstn_skipn 8 sorted). apply in_or_app. now left. }
    unfold dir_totals in Hin'. apply in_map_iff in Hin' as [d' [E Hd]].
    inversion E; subst d' c. split.
    + apply files_of_dir_nonempty. now apply first_seen_In.
    + apply total_of_dir_changes.
  - intros Hfew.
    assert (Hsum : sum_Z (List.map h_churn
                     (List.map (fun e => mkHotspot (fst e) (snd e)) (firstn 8 sorted)))
                   = total_changes files).
    { rewrite map_map. cbn [h_churn].
      rewrite firstn_all2.
      2:{ rewrite <- (Permutation_length Hperm). unfold dir_totals.
          now rewrite length_map. }
      change (sum_Z (List.map snd sorted) = total_changes files).
      rewrite <- (sum_Z_perm _ _ (Permutation_map snd Hperm)).
      rewrite <- fold_add_change, sum_fold_add_change.
      unfold dir_changes, total_changes. rewrite map_map. cbn [snd List.map sum_Z fold_right].
      lia. }
    split; [exact Hsum|]. intros Hgit. rewrite Hsum.
    unfold total_changes, total_additions, total_deletions.
    clear -Hgit. induction files as [|f files IH]; [reflexivity|].
    cbn [List.map sum_Z fold_right].
    rewrite (Hgit f) by now left.
    unfold sum_Z in IH. rewrite IH; [lia|]. intros g Hg. apply Hgit. now right.
Qed.

Lemma hotspots_of_directories_witness :
  exists rep,
    analyze login_change = Ok rep
    /\ sum_Z (List.map h_churn (hotspots rep)) = churn (metrics rep).
Proof.
  exists (report_of login_change).
  assert (H : analyze login_change = Ok (report_of login_change)) by reflexivity.
  split; [exact H|].
  apply (proj2 (proj2 (hotspots_of_directories login_change _ H))).
  - vm_compute. lia.
  - intros f [<-|[]]. reflexivity.
Defined.

(** [analyze] throws exactly when a record of the input has no filename,
    wherever the record stands and whatever the other records are; what it
    throws is the type error of reading [split] off [undefined]. *)
Theorem analyze_throws_exactly (files : list FileRecord) (e : string) :
  analyze files = Throw e
  <-> (exists f, In f files /\ filename f = None) /\ e = split_of_undefined.
Proof.
  split.
  - intros H. destruct (Forall_dec has_filename has_filename_dec files) as [Hall|Hnot].
    + rewrite analyze_ok in H by assumption. discriminate.
    + rewrite analyze_missing in H by assumption. split; [|congruence].
      apply Exists_Forall_neg in Hnot; [|intros f; destruct (has_filename_dec f); auto].
      apply Exists_exists in Hnot as [f [Hin Hf]]. exists f. split; [assumption|].
      unfold has_filename in Hf. destruct (filename f); [|reflexivity].
      exfalso. apply Hf. discriminate.
  - intros [[f [Hin Hf]] ->]. apply analyze_missing. intros Hall.
    rewrite Forall_forall in Hall. apply (Hall f Hin). exact Hf.
Qed.

Lemma analyze_throws_exactly_witness :
  analyze nameless_record = Throw split_of_undefined.
Proof.
  apply (proj2 (analyze_throws_exactly nameless_record split_of_undefined)).
  split; [|reflexivity].
  exists (mkFile None (Some 1) (Some 2) (Some 3) (Some "modified")).
  split; [now left|reflexivity].
Defined.

(* ===================================================================== *)
(** ** The route against an API *)
(* ===================================================================== *)

Section Pagination.

Variable api : Api.
Variables auth owner repo : string.
Variable n : N.

Let body : N * list FileRecord -> itree githubE (N * list FileRecord + Result (list FileRecord)) :=
  fun '(page, all) =>
    ITree.bind
      (ITree.trigger (GetPullFiles auth owner repo n 100 page))
      (fun res =>
         match res with
         | Throw e => Ret (inr (Throw e))
         | Ok data =>
             let all := (all ++ data)%list in
             if (N.of_nat (List.length data) <? 100)%N
             then Ret (inr (Ok all))
             else Ret (inl ((page + 1)%N, all))
         end).

Lemma listAllFiles_loop (pages : list (list FileRecord)) :
  forall (page : N) (all : list FileRecord) (log : list Call)
         (answer : Result (list FileRecord)),
    full_pages api auth owner repo n page pages ->
    api _ (GetPullFiles auth owner repo n 100 (page + N.of_nat (List.length pages)))
    = answer ->
    ends_listing answer ->
    run api (ITree.iter body (page, all)) log
    ≈ Ret ((log ++ page_calls auth owner repo n page (S (List.length pages)))%list,
           match listed pages answer with
           | Ok l => Ok (all ++ l)%list
           | Throw e => Throw e
           end).
Proof using Type.
  induction pages as [|p pages IH]; intros page all log answer Hfull Hlast Hend.
  - cbn [List.length N.of_nat] in Hlast. rewrite N.add_0_r in Hlast.
    unfold run. rewrite unfold_iter. unfold body at 1. cbn.
    rewrite bind_bind, interp_state_bind, interp_state_trigger.
    unfold github at 1. rewrite bind_ret_l. cbn [fst snd]. rewrite Hlast.
    destruct answer as [data|e]; cbn [ends_listing listed List.concat app] in *.
    + assert (E : (N.of_nat (List.length data) <? 100)%N = true)
        by (apply N.ltb_lt; clear - Hend; lia).
      rewrite E, bind_ret_l, interp_state_ret. reflexivity.
    + rewrite bind_ret_l, interp_state_ret. reflexivity.
  - destruct Hfull as [Hp [Hlen Hfull]].
    unfold run. rewrite unfold_iter. unfold body at 1. cbn.
    rewrite bind_bind, interp_state_bind, interp_state_trigger.
    unfold github at 1. rewrite bind_ret_l. cbn [fst snd]. rewrite Hp.
    assert (E : (N.of_nat (List.length p) <? 100)%N = false)
      by (apply N.ltb_ge; clear - Hlen; lia).
    rewrite E, bind_ret_l, interp_state_tau, tau_eutt.
    fold body. fold (run api (ITree.iter body ((page + 1)%N, (all ++ p)%list))
                         (log ++ [call_of (GetPullFiles auth owner repo n 100 page)])%list).
    rewrite (IH (page + 1)%N (all ++ p)%list _ answer Hfull).
    + cbn [page_calls call_of List.length]. rewrite <- app_assoc. cbn [app].
      destruct answer; cbn [listed List.concat]; rewrite <- ?app_assoc; reflexivity.
    + rewrite <- Hlast. do 2 f_equal. cbn [List.length]. clear. lia.
    + assumption.
Qed.

End Pagination.

(** [listAllFiles] asks for the pages 1, 2, ... with a hundred records a
    page, one request after the other, as long as the pages are full; at the
    first page that is short it returns the records of all pages in order;
    at a request that fails it stops with the error of the request. *)
Theorem listAllFiles_pages (api : Api) (auth owner repo : string) (n : N)
        (pages : list (list FileRecord)) (answer : Result (list FileRecord)) :
  full_pages api auth owner repo n 1 pages ->
  api _ (GetPullFiles auth owner repo n 100 (1 + N.of_nat (List.length pages))) = answer ->
  ends_listing answer ->
  run api (listAllFiles auth owner repo n) []
  ≈ Ret (page_calls auth owner repo n 1 (S (List.length pages)), listed pages answer).
Proof.
  intros Hfull Hlast Hend. unfold listAllFiles. cbv zeta.
  rewrite (listAllFiles_loop api auth owner repo n pages 1 [] [] answer Hfull Hlast Hend).
  cbn [app]. destruct (listed pages answer); reflexivity.
Qed.

Lemma listAllFiles_pages_witness :
  run three_pages (listAllFiles "t" "vercel" "next.js" 1) []
  ≈ Ret (page_calls "t" "vercel" "next.js" 1 1 3,
         Ok (full_page "a" ++ full_page "b" ++ login_change)%list).
Proof.
  apply (listAllFiles_pages three_pages "t" "vercel" "next.js" 1
                            [full_page "a"; full_page "b"] (Ok login_change)).
  - cbn [full_pages]. repeat split; try reflexivity; vm_compute; lia.
  - reflexivity.
  - vm_compute. lia.
Defined.

Section Route.

Variable api : Api.
Variable env : Env.
Variable req : Request.
Variable b : Body.
Variable parsed : PullRef.
Variable token : string.

Hypothesis body_read : json req = Ok b.
Hypothesis url_parsed : parsePrUrl (prUrl b) = Some parsed.
Hypothesis token_set : GITHUB_TOKEN env = Some token.
Hypothesis token_not_empty : token <> EmptyString.

Let pull_call : Call :=
  PullCall token (owner parsed) (repo parsed) (pull_number parsed).

Lemma POST_run_pull_fails (e : string) :
  api _ (GetPull token (owner parsed) (repo parsed) (pull_number parsed)) = Throw e ->
  run api (POST env req) [] ≈ Ret ([pull_call], caught e).
Proof using body_read url_parsed token_set token_not_empty.
  intros Hpull. unfold POST. rewrite body_read, url_parsed, token_set.
  destruct token as [|c t] eqn:Et; [contradiction|]. cbn [JS.falsy JS.join_item].
  unfold run. rewrite interp_state_bind, interp_state_trigger.
  unfold github at 1. rewrite bind_ret_l. cbn [fst snd app].
  rewrite Hpull, interp_state_ret. reflexivity.
Qed.

Lemma POST_run_listing (pr : PullData) (pages : list (list FileRecord))
      (answer : Result (list FileRecord)) :
  api _ (GetPull token (owner parsed) (repo parsed) (pull_number parsed)) = Ok pr ->
  full_pages api token (owner parsed) (repo parsed) (pull_number parsed) 1 pages ->
  api _ (GetPullFiles token (owner parsed) (repo parsed) (pull_number parsed) 100
                      (1 + N.of_nat (List.length pages))) = answer ->
  ends_listing answer ->
  run api (POST env req) []
  ≈ Ret (pull_call
           :: page_calls token (owner parsed) (repo parsed) (pull_number parsed) 1
                         (S (List.length pages)),
         respond pr (listed pages answer)).
Proof using body_read url_parsed token_set token_not_empty.
  intros Hpull Hfull Hlast Hend. unfold POST. rewrite body_read, url_parsed, token_set.
  destruct token as [|c t] eqn:Et; [contradiction|]. cbn [JS.falsy JS.join_item].
  unfold run. rewrite interp_state_bind, interp_state_trigger.
  unfold github at 1. rewrite bind_ret_l. cbn [fst snd app].
  rewrite Hpull, interp_state_bind. unfold listAllFiles. cbv zeta.
  pose proof (listAllFiles_loop api (String c t) (owner parsed) (repo parsed)
                (pull_number parsed) pages 1 []
                [call_of (GetPull (String c t) (owner parsed) (repo parsed) (pull_number parsed))]
                answer Hfull Hlast Hend) as Hloop.
  unfold run in Hloop. rewrite Hloop, bind_ret_l. cbn [fst snd app call_of].
  assert (E : match listed pages answer with
              | Ok l => Ok l
              | Throw e => Throw e
              end = listed pages answer) by (destruct (listed pages answer); reflexivity).
  rewrite E. unfold respond.
  destruct (listed pages answer) as [files|e].
  - destruct (analyze files); rewrite interp_state_ret; reflexivity.
  - rewrite interp_state_ret. reflexivity.
Qed.

End Route.

(** With a request for a pull request and a token, when the API answers
    the pull request and the pages of its files, [POST] makes the request for
    the pull request, then the requests for the pages, and answers with the
    status 200, the summary of the pull request, the report of [analyze] on
    the records of all pages and its rendering by [toMarkdown]. *)
Theorem POST_success (api : Api) (env : Env) (req : Request) (b : Body)
        (parsed : PullRef) (token : string) (pr : PullData)
        (pages : list (list FileRecord)) (last : list FileRecord) (rep : Report) :
  json req = Ok b ->
  parsePrUrl (prUrl b) = Some parsed ->
  GITHUB_TOKEN env = Some token ->
  token <> EmptyString ->
  api _ (GetPull token (owner parsed) (repo parsed) (pull_number parsed)) = Ok pr ->
  full_pages api token (owner parsed) (repo parsed) (pull_number parsed) 1 pages ->
  api _ (GetPullFiles token (owner parsed) (repo parsed) (pull_number parsed) 100
                      (1 + N.of_nat (List.length pages))) = Ok last ->
  (List.length last < 100)%nat ->
  analyze (List.concat pages ++ last) = Ok rep ->
  run api (POST env req) []
  ≈ Ret (PullCall token (owner parsed) (repo parsed) (pull_number parsed)
           :: page_calls token (owner parsed) (repo parsed) (pull_number parsed) 1
                         (S (List.length pages)),
         mkResponse
           (ReportBody (mkPrSummary (title pr) (html_url pr) (user_login pr)
                                    (base_repo_full_name pr))
                       rep (toMarkdown pr rep))
           200).
Proof.
  intros Hjson Hurl Htoken Hne Hpull Hfull Hlast Hshort Hrep.
  rewrite (POST_run_listing api env req b parsed token Hjson Hurl Htoken Hne
                            pr pages (Ok last) Hpull Hfull Hlast Hshort).
  cbn [listed respond]. rewrite Hrep. reflexivity.
Qed.

Lemma POST_success_witness :
  run three_pages (POST (with_token "t") good_request) []
  ≈ Ret (PullCall "t" "vercel" "next.js" 1 :: page_calls "t" "vercel" "next.js" 1 1 3,
         respond (mkPullData (Some "Add pages")
                             (Some "https://github.com/vercel/next.js/pull/1")
                             (Some "octocat") (Some "vercel/next.js"))
                 (Ok (full_page "a" ++ full_page "b" ++ login_change)%list)).
Proof.
  assert (Hrep : analyze (List.concat [full_page "a"; full_page "b"] ++ login_change)
                 = Ok (report_of (List.concat [full_page "a"; full_page "b"] ++ login_change)))
    by (vm_compute; reflexivity).
  assert (E : respond (mkPullData (Some "Add pages")
                             (Some "https://github.com/vercel/next.js/pull/1")
                             (Some "octocat") (Some "vercel/next.js"))
                 (Ok (full_page "a" ++ full_page "b" ++ login_change)%list)
              = mkResponse
                  (ReportBody (mkPrSummary (Some "Add pages")
                                 (Some "https://github.com/vercel/next.js/pull/1")
                                 (Some "octocat") (Some "vercel/next.js"))
                     (report_of (List.concat [full_page "a"; full_page "b"] ++ login_change))
                     (toMarkdown (mkPullData (Some "Add pages")
                             (Some "https://github.com/vercel/next.js/pull/1")
                             (Some "octocat") (Some "vercel/next.js"))
                        (report_of (List.concat [full_page "a"; full_page "b"] ++ login_change))))
                  200).
  { unfold respond.
    change (full_page "a" ++ full_page "b" ++ login_change)%list
      with (List.concat [full_page "a"; full_page "b"] ++ login_change)%list.
    rewrite Hrep. reflexivity. }
  rewrite E.
  apply (POST_success three_pages (with_token "t") good_request
           (mkBody (Some "https://github.com/vercel/next.js/pull/1"))
           (mkPullRef "vercel" "next.js" 1) "t"
           (mkPullData (Some "Add pages") (Some "https://github.com/vercel/next.js/pull/1")
                       (Some "octocat") (Some "vercel/next.js"))
           [full_page "a"; full_page "b"] login_change).
  - reflexivity.
  - vm_compute. reflexivity.
  - reflexivity.
  - intros H. discriminate H.
  - reflexivity.
  - cbn [full_pages]. repeat split; try reflexivity; vm_compute; lia.
  - reflexivity.
  - vm_compute. lia.
  - exact Hrep.
Defined.

(** A request to the API that fails makes [POST] answer with the status
    500 and the message of the failure, "Unknown error" when the message is
    empty: after a failure of the request for the pull request no page is
    asked for, after a failure of the request for a page no further page. *)
Theorem POST_upstream_failure (api : Api) (env : Env) (req : Request) (b : Body)
        (parsed : PullRef) (token : string) (e : string) :
  json req = Ok b ->
  parsePrUrl (prUrl b) = Some parsed ->
  GITHUB_TOKEN env = Some token ->
  token <> EmptyString ->
  let failure := mkResponse (ErrorBody (JS.or_string e "Unknown error")) 500 in
  (api _ (GetPull token (owner parsed) (repo parsed) (pull_number parsed)) = Throw e ->
   run api (POST env req) []
   ≈ Ret ([PullCall token (owner parsed) (repo parsed) (pull_number parsed)], failure))
  /\ (forall pr pages,
        api _ (GetPull token (owner parsed) (repo parsed) (pull_number parsed)) = Ok pr ->
        full_pages api token (owner parsed) (repo parsed) (pull_number parsed) 1 pages ->
        api _ (GetPullFiles token (owner parsed) (repo parsed) (pull_number parsed) 100
                            (1 + N.of_nat (List.length pages))) = Throw e ->
        run api (POST env req) []
        ≈ Ret (PullCall token (owner parsed) (repo parsed) (pull_number parsed)
                 :: page_calls token (owner parsed) (repo parsed) (pull_number parsed) 1
                               (S (List.length pages)),
               failure)).
Proof.
  intros Hjson Hurl Htoken Hne failure. split.
  - intros Hpull.
    exact (POST_run_pull_fails api env req b parsed token Hjson Hurl Htoken Hne e Hpull).
  - intros pr pages Hpull Hfull Hlast.
    exact (POST_run_listing api env req b parsed token Hjson Hurl Htoken Hne
                            pr pages (Throw e) Hpull Hfull Hlast I).
Qed.

Lemma POST_upstream_failure_witness :
  run (failing_api "Not Found") (POST (with_token "t") good_request) []
  ≈ Ret ([PullCall "t" "vercel" "next.js" 1], mkResponse (ErrorBody "Not Found") 500).
Proof.
  apply (proj1 (POST_upstream_failure (failing_api "Not Found") (with_token "t") good_request
           (mkBody (Some "https://github.com/vercel/next.js/pull/1"))
           (mkPullRef "vercel" "next.js" 1) "t" "Not Found"
           eq_refl ltac:(vm_compute; reflexivity) eq_refl
           ltac:(intros H; discriminate H))).
  reflexivity.
Defined.

(** When the list of files that the API sends has a record without
    filename, [POST] answers with the status 500 and the message of the type
    error that [analyze] throws. *)
Theorem POST_nameless_record (api : Api) (env : Env) (req : Request) (b : Body)
        (parsed : PullRef) (token : string) (pr : PullData)
        (pages : list (list FileRecord)) (last : list FileRecord) :
  json req = Ok b ->
  parsePrUrl (prUrl b) = Some parsed ->
  GITHUB_TOKEN env = Some token ->
  token <> EmptyString ->
  api _ (GetPull token (owner parsed) (repo parsed) (pull_number parsed)) = Ok pr ->
  full_pages api token (owner parsed) (repo parsed) (pull_number parsed) 1 pages ->
  api _ (GetPullFiles token (owner parsed) (repo parsed) (pull_number parsed) 100
                      (1 + N.of_nat (List.length pages))) = Ok last ->
  (List.length last < 100)%nat ->
  (exists f, In f (List.concat pages ++ last) /\ filename f = None) ->
  run api (POST env req) []
  ≈ Ret (PullCall token (owner parsed) (repo parsed) (pull_number parsed)
           :: page_calls token (owner parsed) (repo parsed) (pull_number parsed) 1
                         (S (List.length pages)),
         mkResponse (ErrorBody split_of_undefined) 500).
Proof.
  intros Hjson Hurl Htoken Hne Hpull Hfull Hlast Hshort [f [Hin Hf]].
  rewrite (POST_run_listing api env req b parsed token Hjson Hurl Htoken Hne
                            pr pages (Ok last) Hpull Hfull Hlast Hshort).
  cbn [listed respond]. rewrite analyze_missing; [reflexivity|].
  intros Hall. rewrite Forall_forall in Hall. apply (Hall f Hin). exact Hf.
Qed.

Lemma POST_nameless_record_witness :
  run nameless_api (POST (with_token "t") good_request) []
  ≈ Ret ([PullCall "t" "vercel" "next.js" 1; FilesCall "t" "vercel" "next.js" 1 100 1],
         mkResponse (ErrorBody split_of_undefined) 500).
Proof.
  apply (POST_nameless_record nameless_api (with_token "t") good_request
           (mkBody (Some "https://github.com/vercel/next.js/pull/1"))
           (mkPullRef "vercel" "next.js" 1) "t" (mkPullData None None None None)
           [] nameless_record).
  - reflexivity.
  - vm_compute. reflexivity.
  - reflexivity.
  - intros H. discriminate H.
  - reflexivity.
  - exact I.
  - reflexivity.
  - vm_compute. lia.
  - exists (mkFile None (Some 1) (Some 2) (Some 3) (Some "modified")).
    split; [now left|reflexivity].
Defined.

Lemma caught_well_formed (e : string) : well_formed_response (caught e).
Proof.
  right. right. split; [reflexivity|].
  exists (JS.or_string e "Unknown error"). split; [|reflexivity].
  destruct e; discriminate.
Qed.

Lemma respond_well_formed (pr : PullData) (files : Result (list FileRecord)) :
  well_formed_response (respond pr files).
Proof.
  unfold respond. destruct files as [files|e]; [|apply caught_well_formed].
  destruct (analyze files) as [rep|e] eqn:E; [|apply caught_well_formed].
  left. split; [reflexivity|]. exists pr, files, rep. now split.
Qed.

(** Whatever the API answers, a response of [POST] is a report with the
    status 200, or the refusal of the URL with the status 400, or an error
    with the status 500 whose message is not empty. *)
Theorem POST_responses (env : Env) (req : Request) (resp : Response) :
  Leaf resp (POST env req) -> well_formed_response resp.
Proof.
  unfold POST. destruct (json req) as [b|e].
  2:{ intros H. apply Leaf_Ret_inv in H. subst. apply caught_well_formed. }
  destruct (parsePrUrl (prUrl b)) as [parsed|].
  2:{ intros H. apply Leaf_Ret_inv in H. subst. right. left. now split. }
  cbv zeta. destruct (JS.falsy (GITHUB_TOKEN env)).
  { intros H. apply Leaf_Ret_inv in H. subst. right. right. split; [reflexivity|].
    exists "Missing GITHUB_TOKEN in .env.local". split; [discriminate|reflexivity]. }
  intros H. apply Leaf_bind_inv in H as [res [_ H]].
  destruct res as [pr|e].
  2:{ apply Leaf_Ret_inv in H. subst. apply caught_well_formed. }
  apply Leaf_bind_inv in H as [files [_ H]].
  pose proof (respond_well_formed pr files) as Hw. unfold respond in Hw.
  destruct files as [files|e].
  - destruct (analyze files); apply Leaf_Ret_inv in H; subst; exact Hw.
  - apply Leaf_Ret_inv in H. subst. exact Hw.
Qed.

Lemma POST_responses_witness :
  well_formed_response (mkResponse (ErrorBody "Invalid GitHub PR URL") 400).
Proof.
  apply (POST_responses (mkEnv None) bad_request).
  assert (E : POST (mkEnv None) bad_request
              = Ret (mkResponse (ErrorBody "Invalid GitHub PR URL") 400))
    by (vm_compute; reflexivity).
  rewrite E. apply Leaf_Ret.
Defined.



(* ===================================================================== *)
(** ** What the markdown tells *)
(* ===================================================================== *)

Lemma lines_cons (l : string) (ls : list string) :
  lines (l :: ls) = l ++ JS.newline ++ lines ls.
Proof.
  unfold lines. destruct ls as [|l' ls]; cbn [List.map String.concat].
  - now rewrite string_app_nil_r.
  - now rewrite string_app_assoc.
Qed.

Lemma append_inv_head (s a b : string) : s ++ a = s ++ b -> a = b.
Proof.
  induction s as [|c s IH]; cbn [append]; intros H; [assumption|].
  injection H as H. now apply IH.
Qed.

(** Two strings that end at the first occurrence of a character. *)
Lemma delimited (c : ascii) (s1 s2 t1 t2 : string) :
  lacks c s1 = true -> lacks c s2 = true ->
  s1 ++ String c t1 = s2 ++ String c t2 -> s1 = s2 /\ t1 = t2.
Proof.
  unfold lacks. revert s2.
  induction s1 as [|a s1 IH]; intros [|b s2] H1 H2 E; cbn [append] in E.
  - injection E as E. now split.
  - injection E as Ec E. subst b. cbn [list_ascii_of_string forallb] in H2.
    now rewrite Ascii.eqb_refl in H2.
  - injection E as Ec E. subst a. cbn [list_ascii_of_string forallb] in H1.
    now rewrite Ascii.eqb_refl in H1.
  - injection E as Ec E. subst b.
    cbn [list_ascii_of_string forallb] in H1, H2.
    apply andb_true_iff in H1 as [_ H1]. apply andb_true_iff in H2 as [_ H2].
    destruct (IH s2 H1 H2 E) as [-> ->]. now split.
Qed.

Lemma uint_digits (d : Decimal.uint) :
  all_digits (NilEmpty.string_of_uint d) = true.
Proof. unfold all_digits. induction d; cbn; auto. Qed.

Lemma all_digits_lacks (c : ascii) (s : string) :
  is_digit c = false -> all_digits s = true -> lacks c s = true.
Proof.
  unfold all_digits, lacks. intros Hc. induction s as [|a s IH]; [reflexivity|].
  cbn [list_ascii_of_string forallb]. intros H. apply andb_true_iff in H as [Ha H].
  rewrite (IH H), andb_true_r. destruct (Ascii.eqb_spec a c); [congruence|reflexivity].
Qed.

Lemma number_to_string_lacks (c : ascii) (z : Z) :
  is_digit c = false -> c <> "-"%char -> lacks c (JS.number_to_string z) = true.
Proof.
  intros Hc Hm. unfold JS.number_to_string.
  assert (U : forall d, lacks c (NilZero.string_of_uint d) = true).
  { intros d. apply all_digits_lacks; [assumption|].
    destruct d; try apply uint_digits. reflexivity. }
  destruct (Z.to_int z) as [d|d]; cbn [NilZero.string_of_int]; [apply U|].
  unfold lacks. cbn [list_ascii_of_string forallb].
  destruct (Ascii.eqb_spec "-"%char c); [congruence|]. apply U.
Qed.

Lemma number_to_string_inj (a b : Z) :
  JS.number_to_string a = JS.number_to_string b -> a = b.
Proof.
  unfold JS.number_to_string. intros H.
  assert (N : forall z, Z.to_int z <> Decimal.Pos Decimal.Nil
                        /\ Z.to_int z <> Decimal.Neg Decimal.Nil).
  { intros [|p|p]; cbn; split; try discriminate;
      intros E; injection E as E; revert E; apply DecimalPos.Unsigned.to_uint_nonnil. }
  pose proof (NilZero.isi (Z.to_int a) (proj1 (N a)) (proj2 (N a))) as Ea.
  pose proof (NilZero.isi (Z.to_int b) (proj1 (N b)) (proj2 (N b))) as Eb.
  rewrite H, Eb in Ea. injection Ea as Ea.
  now apply DecimalZ.to_int_inj.
Qed.

(** A number between two texts, the one after it starting with a
    character that is no digit and no sign. *)
Lemma number_delimited (c : ascii) (a b : Z) (t1 t2 : string) :
  is_digit c = false -> c <> "-"%char ->
  JS.number_to_string a ++ String c t1 = JS.number_to_string b ++ String c t2 ->
  a = b /\ t1 = t2.
Proof.
  intros Hc Hm E.
  apply delimited in E as [E ->]; try now apply number_to_string_lacks.
  split; [now apply number_to_string_inj|reflexivity].
Qed.

Lemma level_of_upper (s : Z) :
  lacks "*" (JS.to_upper_case (level_of s)) = true.
Proof. unfold level_of. destruct (6 <=? s), (3 <=? s); reflexivity. Qed.

(** The markdown of a pull request tells the metrics of the report: two
    reports with the same markdown have the same four metrics; when they are
    reports of [analyze] they also have the same score and the same level. *)
Theorem markdown_tells_metrics (pr : PullData) (r1 r2 : Report) :
  toMarkdown pr r1 = toMarkdown pr r2 ->
  metrics r1 = metrics r2
  /\ (forall files1 files2,
        analyze files1 = Ok r1 -> analyze files2 = Ok r2 ->
        score (risk r1) = score (risk r2) /\ level (risk r1) = level (risk r2)).
Proof.
  destruct r1 as [[n1 a1 d1 c1] [l1 s1 rs1] hs1 bs1].
  destruct r2 as [[n2 a2 d2 c2] [l2 s2 rs2] hs2 bs2].
  unfold toMarkdown. cbv zeta. cbn [metrics risk totalFiles m_additions m_deletions churn
                                     level score reasons hotspots biggestFiles].
  intros H. rewrite !lines_cons, !string_app_assoc in H.
  cbn [append] in H; repeat (first [apply append_inv_head in H | injection H as H]).
  apply number_delimited in H as [E1 H]; [|reflexivity|discriminate].
  cbn [append] in H; repeat (first [apply append_inv_head in H | injection H as H]).
  apply number_delimited in H as [E2 H]; [|reflexivity|discriminate].
  cbn [append] in H; repeat (first [apply append_inv_head in H | injection H as H]).
  apply number_delimited in H as [E3 H]; [|reflexivity|discriminate].
  cbn [append] in H; repeat (first [apply append_inv_head in H | injection H as H]).
  apply number_delimited in H as [E4 H]; [|reflexivity|discriminate].
  split; [now subst|].
  intros files1 files2 A1 A2.
  apply analyze_inv in A1 as [_ A1]. apply analyze_inv in A2 as [_ A2].
  unfold report_of in A1, A2. injection A1 as _ _ _ _ L1 S1 _ _ _.
  injection A2 as _ _ _ _ L2 S2 _ _ _.
  rewrite <- S1 in L1. rewrite <- S2 in L2.
  cbn [append] in H; repeat (first [apply append_inv_head in H | injection H as H]).
  apply delimited in H as [_ H]; [|rewrite L1; apply level_of_upper
                                  |rewrite L2; apply level_of_upper].
  cbn [append] in H; repeat (first [apply append_inv_head in H | injection H as H]).
  apply number_delimited in H as [E5 H]; [|reflexivity|discriminate].
  split; [exact E5|]. now rewrite L1, L2, E5.
Qed.

Lemma markdown_tells_metrics_witness :
  metrics (report_of login_change) = metrics (report_of login_added).
Proof.
  apply (markdown_tells_metrics sample_pull (report_of login_change) (report_of login_added)).
  vm_compute. reflexivity.
Defined.
